(** * Rotation sequences and direction cosine matrices

    A shallow embedding of the notebook [rotationSequence.ipynb]:

    - [create_rotation_matrix] and [euler_to_dcm], the numeric pipeline
      (NumPy), and
    - [get_symbolic_dcm] with its local [create_symbolic_rotation], and the
      transpose taken in [display_symbolic_dcm], the symbolic pipeline
      (SymPy).

    Both pipelines are written over one interface of scalars, [Scalar]: the
    constants 0 and 1, addition, multiplication, unary minus, [cos] and
    [sin].  That is all the source asks of its numbers.  The symbolic
    pipeline runs over expression trees ([expr]); the numeric pipeline is
    stated for every scalar type, and evaluated over the reals of the
    Standard Library where a number is asked for.  Machine rounding of
    float64 is not part of the model: numeric scalars obey the laws of a
    commutative ring. *)

From Stdlib Require Import String.
From Stdlib Require Import ZArith List Bool Lia.
From Stdlib Require Import Ring Ring_theory.
From Stdlib Require Import Reals Lra Machin.
From Stdlib Require Import Ascii DecimalString.
Import ListNotations.

Set Implicit Arguments.

(** ** Scalars *)

Class Scalar (A : Type) : Type := {
  szero : A;
  sone : A;
  sadd : A -> A -> A;
  smul : A -> A -> A;
  sopp : A -> A;
  scos : A -> A;
  ssin : A -> A
}.

Definition ssub {A} `{Scalar A} (a b : A) : A := sadd a (sopp b).

Declare Scope scalar_scope.
Delimit Scope scalar_scope with S.
Notation "a + b" := (sadd a b) : scalar_scope.
Notation "a * b" := (smul a b) : scalar_scope.
Notation "- a" := (sopp a) : scalar_scope.

(** The laws the algebraic claims rest on.  [CRing] is what exact arithmetic
    gives; the three trigonometric laws are kept apart so that every theorem
    names the ones it uses. *)

Class CRing (A : Type) `{Scalar A} : Prop :=
  cring_laws : ring_theory szero sone sadd smul ssub sopp (@eq A).

Definition Pythagorean (A : Type) `{Scalar A} : Prop :=
  forall a : A, (scos a * scos a + ssin a * ssin a)%S = sone.

Definition TrigParity (A : Type) `{Scalar A} : Prop :=
  forall a : A, scos (- a)%S = scos a /\ ssin (- a)%S = (- ssin a)%S.

Definition TrigAtZero (A : Type) `{Scalar A} : Prop :=
  scos szero = sone /\ ssin szero = szero.

Arguments CRing A {_}.
Arguments Pythagorean A {_}.
Arguments TrigParity A {_}.
Arguments TrigAtZero A {_}.

(** ** 3x3 matrices

    Every matrix of the notebook is 3x3: [np.eye(3)], [sp.eye(3)] and the
    nested lists of three rows of three entries given to [np.array] and
    [sp.Matrix].  A matrix is a record of its nine entries, row by row. *)

Record matrix (A : Type) : Type := Mat {
  m11 : A; m12 : A; m13 : A;
  m21 : A; m22 : A; m23 : A;
  m31 : A; m32 : A; m33 : A
}.

Section MatrixOps.
Context {A : Type} `{Scalar A}.
Local Open Scope scalar_scope.

(** [np.eye(3)] and [sp.eye(3)]. *)
Definition eye : matrix A :=
  Mat sone szero szero
      szero sone szero
      szero szero sone.

(** [np.dot(a, b)] on two-dimensional arrays and [a * b] on SymPy
    matrices: the matrix product. *)
Definition dot (a b : matrix A) : matrix A :=
  Mat (m11 a * m11 b + m12 a * m21 b + m13 a * m31 b)
      (m11 a * m12 b + m12 a * m22 b + m13 a * m32 b)
      (m11 a * m13 b + m12 a * m23 b + m13 a * m33 b)
      (m21 a * m11 b + m22 a * m21 b + m23 a * m31 b)
      (m21 a * m12 b + m22 a * m22 b + m23 a * m32 b)
      (m21 a * m13 b + m22 a * m23 b + m23 a * m33 b)
      (m31 a * m11 b + m32 a * m21 b + m33 a * m31 b)
      (m31 a * m12 b + m32 a * m22 b + m33 a * m32 b)
      (m31 a * m13 b + m32 a * m23 b + m33 a * m33 b).

(** [dcm.transpose()]. *)
Definition transpose (a : matrix A) : matrix A :=
  Mat (m11 a) (m21 a) (m31 a)
      (m12 a) (m22 a) (m32 a)
      (m13 a) (m23 a) (m33 a).
End MatrixOps.

(** ** Exceptions

    A call either returns a value or raises.  [SympifyError] (a subclass of
    [ValueError], kept apart from the two messages the notebook raises
    itself) is what SymPy raises when a matrix is multiplied by [None]. *)

Inductive exn : Type :=
| ValueError (msg : string)
| KeyError (key : Z)
| SympifyError.

Inductive result (T : Type) : Type :=
| Ok (value : T)
| Raise (e : exn).

Arguments Ok {T} value.
Arguments Raise {T} e.

Definition bind {T U} (r : result T) (k : T -> result U) : result U :=
  match r with
  | Ok v => k v
  | Raise e => Raise e
  end.

Notation "x <- r ;; k" := (bind r (fun x => k))
  (at level 61, r at next level, right associativity).

(** ** The numeric pipeline *)

Section Numeric.
Context {A : Type} `{Scalar A}.
Local Open Scope scalar_scope.

(** [create_rotation_matrix(axis, angle)]: the [if]/[elif] chain on the
    axis code, and [raise ValueError] in the [else]. *)
Definition create_rotation_matrix (axis : Z) (angle : A)
  : result (matrix A) :=
  let c := scos angle in
  let s := ssin angle in
  if (axis =? 1)%Z then
    Ok (Mat sone szero szero
            szero c (- s)
            szero s c)
  else if (axis =? 2)%Z then
    Ok (Mat c szero s
            szero sone szero
            (- s) szero c)
  else if (axis =? 3)%Z then
    Ok (Mat c (- s) szero
            s c szero
            szero szero sone)
  else Raise (ValueError "Axis must be 1, 2, or 3"%string).

(** The [for] loop of [euler_to_dcm] over [zip(sequence, angles)], with
    [dcm] as the loop variable. *)
Fixpoint euler_loop (dcm : matrix A) (pairs : list (Z * A))
  : result (matrix A) :=
  match pairs with
  | [] => Ok dcm
  | (axis, angle) :: rest =>
      rotation_matrix <- create_rotation_matrix axis angle ;;
      euler_loop (dot dcm rotation_matrix) rest
  end.

(** [euler_to_dcm(sequence, angles)]. *)
Definition euler_to_dcm (sequence : list Z) (angles : list A)
  : result (matrix A) :=
  if negb (List.length sequence =? List.length angles)%nat then
    Raise (ValueError "Number of axes must match number of angles"%string)
  else
    euler_loop eye (combine sequence angles).
End Numeric.

(** ** The symbolic pipeline *)

(** The three symbols made by [sp.symbols]. *)
Inductive symbol : Type := phi | theta | psi.

(** SymPy expressions, as far as the notebook builds them: integers,
    symbols, [cos], [sin], unary minus, sums and products.  SymPy keeps
    every expression in a canonical form of its own; the tree here is the
    expression as the matrix code writes it, and two trees are compared by
    their values ([denote]). *)
Inductive expr : Type :=
| EInt (n : Z)
| ESym (x : symbol)
| ECos (e : expr)
| ESin (e : expr)
| ENeg (e : expr)
| EAdd (e1 e2 : expr)
| EMul (e1 e2 : expr).

#[export] Instance expr_scalar : Scalar expr := {
  szero := EInt 0;
  sone := EInt 1;
  sadd := EAdd;
  smul := EMul;
  sopp := ENeg;
  scos := ECos;
  ssin := ESin
}.

(** [angle_map = {1: phi, 2: theta, 3: psi}], a dict, and [angle_map[axis]],
    which raises [KeyError] on a key that is absent. *)
Definition angle_map : list (Z * symbol) :=
  [(1%Z, phi); (2%Z, theta); (3%Z, psi)].

Fixpoint dict_get {V} (d : list (Z * V)) (key : Z) : result V :=
  match d with
  | [] => Raise (KeyError key)
  | (k, v) :: rest => if (k =? key)%Z then Ok v else dict_get rest key
  end.

(** [[angle_map[axis] for axis in sequence]]. *)
Fixpoint symbolic_angles (sequence : list Z) : result (list expr) :=
  match sequence with
  | [] => Ok []
  | axis :: rest =>
      x <- dict_get angle_map axis ;;
      angles <- symbolic_angles rest ;;
      Ok (ESym x :: angles)
  end.

(** [create_symbolic_rotation(axis, angle)], local to [get_symbolic_dcm].
    The chain has no [else]: on any other axis the function falls off its
    end and returns Python's [None]. *)
Definition create_symbolic_rotation (axis : Z) (angle : expr)
  : option (matrix expr) :=
  let c := scos angle in
  let s := ssin angle in
  if (axis =? 1)%Z then
    Some (Mat sone szero szero
              szero c (sopp s)
              szero s c)
  else if (axis =? 2)%Z then
    Some (Mat c szero s
              szero sone szero
              (sopp s) szero c)
  else if (axis =? 3)%Z then
    Some (Mat c (sopp s) szero
              s c szero
              szero szero sone)
  else None.

(** The [for] loop of [get_symbolic_dcm]; [dcm * None] raises. *)
Fixpoint symbolic_loop (dcm : matrix expr) (pairs : list (Z * expr))
  : result (matrix expr) :=
  match pairs with
  | [] => Ok dcm
  | (axis, angle) :: rest =>
      match create_symbolic_rotation axis angle with
      | Some rot_matrix => symbolic_loop (dot dcm rot_matrix) rest
      | None => Raise SympifyError
      end
  end.

(** [get_symbolic_dcm(sequence)]. *)
Definition get_symbolic_dcm (sequence : list Z) : result (matrix expr) :=
  angles <- symbolic_angles sequence ;;
  symbolic_loop eye (combine sequence angles).

(** [dcm_inverse = dcm.transpose()] in [display_symbolic_dcm]: the inverse
    is the transpose, nothing is solved or eliminated. *)
Definition invert {A} (dcm : matrix A) : matrix A := transpose dcm.

(** ** Values of expressions

    [denote v e] is the value of [e] in a scalar type [A] when the symbols
    take the values [v].  An equation between SymPy expressions is a
    symbolic identity when both sides have the same value in every scalar
    type that obeys the laws in force, for every value of the symbols. *)

Section Denote.
Context {A : Type} `{Scalar A}.

Definition of_Z (n : Z) : A :=
  match n with
  | Z0 => szero
  | Zpos p => Pos.iter_op sadd p sone
  | Zneg p => sopp (Pos.iter_op sadd p sone)
  end.

Fixpoint denote (v : symbol -> A) (e : expr) : A :=
  match e with
  | EInt n => of_Z n
  | ESym x => v x
  | ECos e => scos (denote v e)
  | ESin e => ssin (denote v e)
  | ENeg e => sopp (denote v e)
  | EAdd e1 e2 => sadd (denote v e1) (denote v e2)
  | EMul e1 e2 => smul (denote v e1) (denote v e2)
  end.

Definition denote_matrix (v : symbol -> A) (m : matrix expr) : matrix A :=
  Mat (denote v (m11 m)) (denote v (m12 m)) (denote v (m13 m))
      (denote v (m21 m)) (denote v (m22 m)) (denote v (m23 m))
      (denote v (m31 m)) (denote v (m32 m)) (denote v (m33 m)).

(** A sequence of symbolic pairs at the values [v]. *)
Definition at_values {B : Type} (v : symbol -> A) (pairs : list (B * expr))
  : list (B * A) :=
  map (fun p => (fst p, denote v (snd p))) pairs.
End Denote.

(** Equal by the ring laws alone. *)
Definition ring_identity (m n : matrix expr) : Prop :=
  forall (A : Type) (S : Scalar A), CRing A ->
  forall v : symbol -> A, denote_matrix v m = denote_matrix v n.

(** Equal after trigonometric simplification: the ring laws and
    [cos^2 + sin^2 = 1]. *)
Definition trig_identity (m n : matrix expr) : Prop :=
  forall (A : Type) (S : Scalar A), CRing A -> Pythagorean A ->
  forall v : symbol -> A, denote_matrix v m = denote_matrix v n.

(** ** Axes and sequences of the data model *)

(** The axis identifiers 1, 2, 3 as an enumeration. *)
Inductive Axis : Type := AxisX | AxisY | AxisZ.

Definition axis_of_code (axis : Z) : option Axis :=
  if (axis =? 1)%Z then Some AxisX
  else if (axis =? 2)%Z then Some AxisY
  else if (axis =? 3)%Z then Some AxisZ
  else None.

Definition valid_axis (axis : Z) : bool :=
  match axis_of_code axis with Some _ => true | None => false end.

Fixpoint decode_axes (sequence : list Z) : option (list Axis) :=
  match sequence with
  | [] => Some []
  | axis :: rest =>
      match axis_of_code axis, decode_axes rest with
      | Some a, Some l => Some (a :: l)
      | _, _ => None
      end
  end.

(** The symbol that [angle_map] gives an axis. *)
Definition axis_symbol (a : Axis) : symbol :=
  match a with AxisX => phi | AxisY => theta | AxisZ => psi end.

(** The angles of the symbolic pipeline: one symbol per axis, by
    [axis_symbol]. *)
Definition angles_of (axes : list Axis) : list expr :=
  map (fun a => ESym (axis_symbol a)) axes.

(** The first axis of a sequence that is not 1, 2 or 3, if there is one. *)
Fixpoint first_invalid (sequence : list Z) : option Z :=
  match sequence with
  | [] => None
  | axis :: rest => if valid_axis axis then first_invalid rest else Some axis
  end.

(** The fixed mapping from an axis identifier to its angle symbol:
    1 to phi, 2 to theta, 3 to psi. *)
Definition symbol_for (axis : Z) : option expr :=
  match axis with
  | 1%Z => Some (ESym phi)
  | 2%Z => Some (ESym theta)
  | 3%Z => Some (ESym psi)
  | _ => None
  end.

Section Elementary.
Context {A : Type} `{Scalar A}.
Local Open Scope scalar_scope.

(** The three elementary rotation matrices, as the spec tabulates them
    (and as the notebook's text gives [R_x], [R_y], [R_z]). *)
Definition elementary (a : Axis) (angle : A) : matrix A :=
  match a with
  | AxisX => Mat sone szero szero
                 szero (scos angle) (- ssin angle)
                 szero (ssin angle) (scos angle)
  | AxisY => Mat (scos angle) szero (ssin angle)
                 szero sone szero
                 (- ssin angle) szero (scos angle)
  | AxisZ => Mat (scos angle) (- ssin angle) szero
                 (ssin angle) (scos angle) szero
                 szero szero sone
  end.

(** The spec's composition: start from the identity and, pair by pair in
    sequence order, multiply the accumulator on the right by the
    elementary matrix of the pair. *)
Definition compose (pairs : list (Axis * A)) : matrix A :=
  fold_left (fun accumulator p => dot accumulator (elementary (fst p) (snd p)))
            pairs eye.

(** The sequence that undoes [pairs]: reversed, each angle negated. *)
Definition reverse_negated (pairs : list (Axis * A)) : list (Axis * A) :=
  rev (map (fun p => (fst p, - snd p)) pairs).
End Elementary.

(** The matrix that the notebook displays for
    [display_symbolic_dcm([3, 2, 1], ...)], entry by entry. *)
Definition aircraft_displayed : matrix expr :=
  let cos_phi := ECos (ESym phi) in
  let sin_phi := ESin (ESym phi) in
  let cos_theta := ECos (ESym theta) in
  let sin_theta := ESin (ESym theta) in
  let cos_psi := ECos (ESym psi) in
  let sin_psi := ESin (ESym psi) in
  (Mat (cos_psi * cos_theta)
       (sin_phi * sin_theta * cos_psi + - (sin_psi * cos_phi))
       (sin_phi * sin_psi + sin_theta * cos_phi * cos_psi)
       (sin_psi * cos_theta)
       (sin_phi * sin_psi * sin_theta + cos_phi * cos_psi)
       (- (sin_phi * cos_psi) + sin_psi * sin_theta * cos_phi)
       (- sin_theta)
       (sin_phi * cos_theta)
       (cos_phi * cos_theta))%S.

(** ** The numeric pipeline over the reals *)

#[export] Instance real_scalar : Scalar R := {
  szero := 0%R;
  sone := 1%R;
  sadd := Rplus;
  smul := Rmult;
  sopp := Ropp;
  scos := cos;
  ssin := sin
}.

(** [np.radians(angle)]. *)
Definition radians (degrees : R) : R := (degrees * (PI / 180))%R.

(** [print_matrix] at its default precision of 6 shows a value as
    [millionths / 10^6] when that is the nearest number with six decimals;
    [within tolerance] asks for a distance below [tolerance]. *)
Definition within (tolerance value : R) (millionths : Z) : Prop :=
  (Rabs (value - IZR millionths / 1000000) < tolerance)%R.

Definition shows_as (value : R) (millionths : Z) : Prop :=
  within (5 / 10000000) value millionths.

Definition entrywise_related (rel : R -> Z -> Prop)
           (m : matrix R) (shown : matrix Z) : Prop :=
  rel (m11 m) (m11 shown) /\ rel (m12 m) (m12 shown) /\
  rel (m13 m) (m13 shown) /\
  rel (m21 m) (m21 shown) /\ rel (m22 m) (m22 shown) /\
  rel (m23 m) (m23 shown) /\
  rel (m31 m) (m31 shown) /\ rel (m32 m) (m32 shown) /\
  rel (m33 m) (m33 shown).

Definition matrix_shows_as : matrix R -> matrix Z -> Prop :=
  entrywise_related shows_as.

(** The aircraft example of the notebook: yaw 30, pitch 15, roll 10
    degrees, sequence Z-Y-X. *)
Definition aircraft_sequence : list Z := [3; 2; 1]%Z.
Definition aircraft_angles_deg : list R := [30; 15; 10]%R.
Definition aircraft_angles_rad : list R := map radians aircraft_angles_deg.

(** The matrix printed for it, in millionths. *)
Definition aircraft_printed : matrix Z :=
  Mat 836516%Z (-453482)%Z 307563%Z
      482963%Z 875340%Z (-22940)%Z
      (-258819)%Z 167731%Z 951251%Z.

(** ** Further notions for the properties below *)

Section Determinant.
Context {A : Type} `{Scalar A}.
Local Open Scope scalar_scope.

(** The determinant of a 3x3 matrix, expanded along its first row. *)
Definition det (m : matrix A) : A :=
  m11 m * (m22 m * m33 m + - (m23 m * m32 m))
  + - (m12 m * (m21 m * m33 m + - (m23 m * m31 m)))
  + m13 m * (m21 m * m32 m + - (m22 m * m31 m)).
End Determinant.

(** The rows of a matrix, and its nine entries row by row, as lists. *)
Definition rows_of {A} (m : matrix A) : list (list A) :=
  [[m11 m; m12 m; m13 m]; [m21 m; m22 m; m23 m]; [m31 m; m32 m; m33 m]].

Definition entries {A} (m : matrix A) : list A := concat (rows_of m).

(** The addition formulas of [cos] and [sin]. *)
Definition TrigAddition (A : Type) `{Scalar A} : Prop :=
  forall a b : A,
    scos (a + b)%S = (scos a * scos b + - (ssin a * ssin b))%S
    /\ ssin (a + b)%S = (ssin a * scos b + scos a * ssin b)%S.

Arguments TrigAddition A {_}.

(** ** Showing the matrices *)

(** What a cell leaves in the notebook, in order: a line written by
    [print], or a matrix handed to [display(Math(sp.latex(...)))], whose
    typesetting is SymPy's and IPython's. *)
Inductive output : Type :=
| Printed (text : string)
| Displayed (m : matrix expr).

(** [axis_names = {1: "X", 2: "Y", 3: "Z"}]. *)
Definition axis_names : list (Z * string) :=
  [(1%Z, "X"%string); (2%Z, "Y"%string); (3%Z, "Z"%string)].

(** [[axis_names[axis] for axis in sequence]]. *)
Fixpoint axis_letters (sequence : list Z) : result (list string) :=
  match sequence with
  | [] => Ok []
  | axis :: rest =>
      name <- dict_get axis_names axis ;;
      names <- axis_letters rest ;;
      Ok (name :: names)
  end.

(** [display_symbolic_dcm(sequence, description)], on what the notebook
    has shown so far.  It returns Python's [None]. *)
Definition display_symbolic_dcm (sequence : list Z) (description : string)
           (shown : list output) : list output * result unit :=
  match get_symbolic_dcm sequence with
  | Raise e => (shown, Raise e)
  | Ok dcm =>
      let dcm_inverse := transpose dcm in
      match axis_letters sequence with
      | Raise e => (shown, Raise e)
      | Ok names =>
          let rotation_sequence := String.concat "-" names in
          let shown :=
            shown ++ [Printed (description ++ " (Sequence: "
                               ++ rotation_sequence ++ ")")%string] in
          let shown := shown ++ [Displayed dcm] in
          let shown := shown ++ [Printed "Inverse DCM :"%string] in
          let shown := shown ++ [Displayed dcm_inverse] in
          (shown, Ok tt)
      end
  end.

(** The letter of an axis of the data model. *)
Definition axis_letter (a : Axis) : string :=
  match a with
  | AxisX => "X"%string
  | AxisY => "Y"%string
  | AxisZ => "Z"%string
  end.

(** A two-dimensional array: its [shape] and its entries [matrix[i, j]]. *)
Record ndarray (A : Type) : Type := Array {
  shape : nat * nat;
  item : nat -> nat -> A
}.

(** The array of the rows of a 3x3 matrix. *)
Definition array_of {A} (m : matrix A) : ndarray A :=
  Array (3, 3)%nat
        (fun i j =>
           match i, j with
           | 0, 0 => m11 m | 0, 1 => m12 m | 0, _ => m13 m
           | 1, 0 => m21 m | 1, 1 => m22 m | 1, _ => m23 m
           | _, 0 => m31 m | _, 1 => m32 m | _, _ => m33 m
           end%nat).

Definition newline : string := String (Ascii.ascii_of_nat 10) EmptyString.

Section PrintMatrix.
Context {A : Type}.

(** [format_f width precision value] stands for the f-string
    [f"{value:{width}.{precision}f}"]. *)
Variable format_f : nat -> nat -> A -> string.

Local Open Scope string_scope.

(** [print_matrix(matrix, precision)], on the text written so far.
    [print(x, end="")] appends [x]; [print(x)] appends [x] and a newline. *)
Definition print_matrix (matrix : ndarray A) (precision : nat)
           (stdout : string) : string :=
  let (rows, cols) := shape matrix in
  fold_left
    (fun stdout i =>
       let stdout := stdout ++ "  [" in
       let stdout :=
         fold_left
           (fun stdout j =>
              let value := item matrix i j in
              let formatted_value :=
                format_f (precision + 4) precision value in
              let stdout := stdout ++ formatted_value in
              if (j <? cols - 1)%nat then stdout ++ ", " else stdout)
           (seq 0 cols) stdout in
       stdout ++ ("]" ++ (if (i <? rows - 1)%nat then "" else ""))
              ++ newline)
    (seq 0 rows) stdout.

(** One row as [print_matrix] lays it out. *)
Definition row_text (matrix : ndarray A) (precision : nat) (i : nat)
  : string :=
  "  ["
  ++ String.concat ", "
       (map (fun j => format_f (precision + 4) precision (item matrix i j))
            (seq 0 (snd (shape matrix))))
  ++ "]".
End PrintMatrix.

(** ** Fixed-point formatting

    [f"{value:{width}.{precision}f}"] writes the decimal nearest to the
    value with [precision] digits after the point, a minus sign when the
    value is negative, and spaces on the left up to [width] characters.
    The rounding of the float is Python's; [format_fixed] writes a decimal
    that is already rounded, given by its sign and by its magnitude in units
    of [10^-precision]. *)

Definition digit_char (d : N) : Ascii.ascii := Ascii.ascii_of_N (48 + d).

(** The last [precision] decimal digits of [n], most significant first. *)
Fixpoint fraction_digits (precision : nat) (n : N) : string :=
  match precision with
  | O => EmptyString
  | S k =>
      String (digit_char ((n / 10 ^ N.of_nat k) mod 10))
             (fraction_digits k n)
  end.

(** [text.rjust(width)]. *)
Definition rjust (width : nat) (text : string) : string :=
  (string_of_list_ascii (repeat " "%char (width - String.length text))
   ++ text)%string.

Definition format_fixed (width precision : nat) (value : bool * N)
  : string :=
  let (negative, scaled) := value in
  let whole := (scaled / 10 ^ N.of_nat precision)%N in
  let digits :=
    (NilZero.string_of_uint (N.to_uint whole)
     ++ match precision with
        | O => ""
        | S _ => "." ++ fraction_digits precision scaled
        end)%string in
  rjust width ((if negative then "-" else "") ++ digits)%string.

(** A number of millionths as a rounded decimal with six digits. *)
Definition decimal_of_millionths (z : Z) : bool * N :=
  ((z <? 0)%Z, Z.abs_N z).

(** The three lines that the notebook shows for the aircraft example. *)
Definition aircraft_printed_text : string :=
  ("  [  0.836516,  -0.453482,   0.307563]" ++ newline
   ++ "  [  0.482963,   0.875340,  -0.022940]" ++ newline
   ++ "  [ -0.258819,   0.167731,   0.951251]" ++ newline)%string.

(** ** The last cell of the notebook

    Six sequences, each composed with the angles 5, 3 and 1 degrees in that
    order, and the six matrices printed for them, in millionths. *)
Definition last_cell_sequences : list (list Z) :=
  [[3; 2; 1]; [2; 3; 1]; [2; 1; 3]; [1; 3; 2]; [1; 2; 3]; [3; 1; 2]]%Z.

Definition last_cell_angles_rad : list R := map radians [5; 3; 1]%R.

Definition last_cell_printed : list (matrix Z) :=
  [Mat 994829 (-86233) 53650 87036 996123 (-12825) (-52336) 17428 998477;
   Mat 994829 (-50608) 88052 52336 998477 (-17428) (-87036) 21947 995963;
   Mat 996123 (-12825) 87036 17428 998477 (-52336) (-86233) 53650 994829;
   Mat 998477 (-52336) 17428 53650 994829 (-86233) (-12825) 87036 996123;
   Mat 998477 (-17428) 52336 21947 995963 (-87036) (-50608) 88052 994829;
   Mat 995963 (-87036) 21947 88052 994829 (-50608) (-17428) 52336 998477]%Z.

(** * Properties *)

(** ** Matrix algebra over a commutative ring *)

Section Algebra.
Context {A : Type} {S : Scalar A} {CR : CRing A}.
Local Open Scope scalar_scope.

Add Ring scalar_ring : (CR : ring_theory szero sone sadd smul ssub sopp eq).

Ltac entrywise :=
  unfold dot, transpose, eye; cbn [m11 m12 m13 m21 m22 m23 m31 m32 m33];
  f_equal; try ring.

Lemma dot_assoc (a b c : matrix A) : dot (dot a b) c = dot a (dot b c).
Proof. entrywise. Qed.

Lemma dot_eye_l (a : matrix A) : dot eye a = a.
Proof. destruct a; entrywise. Qed.

Lemma dot_eye_r (a : matrix A) : dot a eye = a.
Proof. destruct a; entrywise. Qed.

Lemma transpose_dot (a b : matrix A) :
  transpose (dot a b) = dot (transpose b) (transpose a).
Proof. entrywise. Qed.

Lemma sopp_zero : - szero = (szero : A).
Proof. ring. Qed.

(** A product of matrices with [m * m^T = I] has it too. *)
Lemma orthogonal_dot (a b : matrix A) :
  dot a (transpose a) = eye -> dot b (transpose b) = eye ->
  dot (dot a b) (transpose (dot a b)) = eye.
Proof.
  intros Ha Hb.
  rewrite transpose_dot, dot_assoc, <- (dot_assoc b).
  now rewrite Hb, dot_eye_l.
Qed.

Lemma elementary_orthogonal (a : Axis) (angle : A) :
  Pythagorean A ->
  dot (elementary a angle) (transpose (elementary a angle)) = eye.
Proof.
  intros P. pose proof (P angle) as E.
  assert (E' : ssin angle * ssin angle + scos angle * scos angle = sone)
    by (rewrite <- E; ring).
  destruct a; unfold elementary; entrywise;
    try (rewrite <- E; ring); try (rewrite <- E'; ring).
Qed.

Lemma elementary_transpose (a : Axis) (angle : A) :
  TrigParity A ->
  transpose (elementary a angle) = elementary a (- angle).
Proof.
  intros P. destruct (P angle) as [Ec Es].
  destruct a; unfold elementary, transpose;
    cbn [m11 m12 m13 m21 m22 m23 m31 m32 m33];
    rewrite Ec, Es; f_equal; ring.
Qed.

Lemma elementary_zero (a : Axis) :
  TrigAtZero A -> elementary a szero = eye.
Proof.
  intros [Ec Es]. destruct a; unfold elementary, eye;
    rewrite Ec, Es, sopp_zero; reflexivity.
Qed.

(** The accumulator can be pulled out of the fold. *)
Lemma fold_dot_from (pairs : list (Axis * A)) (acc : matrix A) :
  fold_left (fun m p => dot m (elementary (fst p) (snd p))) pairs acc
  = dot acc (compose pairs).
Proof.
  unfold compose. revert acc.
  induction pairs as [|p rest IH]; intros acc; cbn [fold_left].
  - now rewrite dot_eye_r.
  - rewrite IH, (IH (dot eye _)), dot_eye_l. apply dot_assoc.
Qed.

Lemma compose_cons (p : Axis * A) (rest : list (Axis * A)) :
  compose (p :: rest) = dot (elementary (fst p) (snd p)) (compose rest).
Proof.
  unfold compose at 1. cbn [fold_left].
  now rewrite fold_dot_from, dot_eye_l.
Qed.

Lemma compose_snoc (pairs : list (Axis * A)) (p : Axis * A) :
  compose (pairs ++ [p]) = dot (compose pairs) (elementary (fst p) (snd p)).
Proof. unfold compose. now rewrite fold_left_app. Qed.

Lemma compose_orthogonal (pairs : list (Axis * A)) :
  Pythagorean A ->
  dot (compose pairs) (transpose (compose pairs)) = eye.
Proof.
  intros P. induction pairs as [|p rest IH] using rev_ind.
  - unfold compose; cbn [fold_left]. now rewrite dot_eye_l.
  - rewrite compose_snoc.
    apply orthogonal_dot; [exact IH | now apply elementary_orthogonal].
Qed.

Lemma compose_transpose (pairs : list (Axis * A)) :
  TrigParity A ->
  transpose (compose pairs) = compose (reverse_negated pairs).
Proof.
  intros P. unfold reverse_negated.
  induction pairs as [|p rest IH].
  - reflexivity.
  - rewrite compose_cons, transpose_dot, IH.
    cbn [map rev]. rewrite compose_snoc. cbn [fst snd].
    now rewrite elementary_transpose.
Qed.

Lemma compose_zero (pairs : list (Axis * A)) :
  TrigAtZero A ->
  Forall (fun p => snd p = szero) pairs -> compose pairs = eye.
Proof.
  intros P F. induction F as [|p rest Hp _ IH].
  - reflexivity.
  - rewrite compose_cons, IH, Hp, elementary_zero by assumption.
    apply dot_eye_l.
Qed.
End Algebra.

(** ** The pipelines on valid and invalid axes *)

Lemma axis_of_code_cases (axis : Z) :
  match axis_of_code axis with
  | Some AxisX => axis = 1%Z
  | Some AxisY => axis = 2%Z
  | Some AxisZ => axis = 3%Z
  | None => axis <> 1%Z /\ axis <> 2%Z /\ axis <> 3%Z
  end.
Proof.
  unfold axis_of_code.
  destruct (Z.eqb_spec axis 1); [assumption|].
  destruct (Z.eqb_spec axis 2); [assumption|].
  destruct (Z.eqb_spec axis 3); [assumption|].
  repeat split; assumption.
Qed.

Lemma decode_axes_length (sequence : list Z) (axes : list Axis) :
  decode_axes sequence = Some axes -> length axes = length sequence.
Proof.
  revert axes. induction sequence as [|axis rest IH]; intros axes; cbn.
  - intros [= <-]. reflexivity.
  - destruct (axis_of_code axis); [|discriminate].
    destruct (decode_axes rest) as [l|]; [|discriminate].
    intros [= <-]. cbn. now rewrite (IH l).
Qed.

Lemma forallb_valid_decode (sequence : list Z) :
  forallb valid_axis sequence = true ->
  exists axes, decode_axes sequence = Some axes.
Proof.
  induction sequence as [|axis rest IH]; cbn.
  - intros _. now exists [].
  - unfold valid_axis at 1. intros V. apply andb_prop in V as [Va Vr].
    destruct (IH Vr) as [l ->].
    destruct (axis_of_code axis) as [a|]; [|discriminate].
    now exists (a :: l).
Qed.

Section NumericFacts.
Context {A : Type} {S : Scalar A}.

Lemma create_rotation_matrix_decode (axis : Z) (a : Axis) (angle : A) :
  axis_of_code axis = Some a ->
  create_rotation_matrix axis angle = Ok (elementary a angle).
Proof.
  unfold axis_of_code, create_rotation_matrix, elementary.
  destruct (axis =? 1)%Z; [now intros [= <-]|].
  destruct (axis =? 2)%Z; [now intros [= <-]|].
  destruct (axis =? 3)%Z; [now intros [= <-]|discriminate].
Qed.

Lemma create_rotation_matrix_invalid (axis : Z) (angle : A) :
  axis_of_code axis = None ->
  create_rotation_matrix axis angle
  = Raise (ValueError "Axis must be 1, 2, or 3"%string).
Proof.
  unfold axis_of_code, create_rotation_matrix.
  destruct (axis =? 1)%Z; [discriminate|].
  destruct (axis =? 2)%Z; [discriminate|].
  destruct (axis =? 3)%Z; [discriminate|reflexivity].
Qed.

Lemma euler_loop_decode (sequence : list Z) (axes : list Axis) :
  decode_axes sequence = Some axes ->
  forall (angles : list A) (dcm : matrix A),
    euler_loop dcm (combine sequence angles)
    = Ok (fold_left (fun m p => dot m (elementary (fst p) (snd p)))
                    (combine axes angles) dcm).
Proof.
  revert axes. induction sequence as [|axis rest IH]; intros axes; cbn.
  - intros [= <-] angles dcm. reflexivity.
  - destruct (axis_of_code axis) as [a|] eqn:Ea; [|discriminate].
    destruct (decode_axes rest) as [l|]; [|discriminate].
    intros [= <-] [|angle angles] dcm; [reflexivity|].
    cbn. rewrite (create_rotation_matrix_decode _ _ Ea). cbn.
    now apply IH.
Qed.

Lemma euler_to_dcm_decode (sequence : list Z) (axes : list Axis)
      (angles : list A) :
  decode_axes sequence = Some axes ->
  length sequence = length angles ->
  euler_to_dcm sequence angles = Ok (compose (combine axes angles)).
Proof.
  intros D L. unfold euler_to_dcm.
  rewrite L, Nat.eqb_refl. cbn [negb].
  now apply euler_loop_decode.
Qed.
End NumericFacts.

Lemma angle_map_decode (axis : Z) (a : Axis) :
  axis_of_code axis = Some a ->
  dict_get angle_map axis = Ok (axis_symbol a).
Proof.
  intros E. pose proof (axis_of_code_cases axis) as C. rewrite E in C.
  destruct a; subst axis; reflexivity.
Qed.

Lemma angle_map_invalid (axis : Z) :
  axis_of_code axis = None ->
  dict_get angle_map axis = Raise (KeyError axis).
Proof.
  intros E. pose proof (axis_of_code_cases axis) as C. rewrite E in C.
  destruct C as (N1 & N2 & N3). unfold angle_map. cbn [dict_get].
  destruct (Z.eqb_spec 1 axis); [congruence|].
  destruct (Z.eqb_spec 2 axis); [congruence|].
  destruct (Z.eqb_spec 3 axis); [congruence|reflexivity].
Qed.

Lemma create_symbolic_rotation_decode (axis : Z) (a : Axis) (angle : expr) :
  axis_of_code axis = Some a ->
  create_symbolic_rotation axis angle = Some (elementary a angle).
Proof.
  unfold axis_of_code, create_symbolic_rotation, elementary.
  destruct (axis =? 1)%Z; [now intros [= <-]|].
  destruct (axis =? 2)%Z; [now intros [= <-]|].
  destruct (axis =? 3)%Z; [now intros [= <-]|discriminate].
Qed.

Lemma create_symbolic_rotation_invalid (axis : Z) (angle : expr) :
  axis_of_code axis = None -> create_symbolic_rotation axis angle = None.
Proof.
  unfold axis_of_code, create_symbolic_rotation.
  destruct (axis =? 1)%Z; [discriminate|].
  destruct (axis =? 2)%Z; [discriminate|].
  destruct (axis =? 3)%Z; [discriminate|reflexivity].
Qed.

Lemma symbolic_angles_decode (sequence : list Z) (axes : list Axis) :
  decode_axes sequence = Some axes ->
  symbolic_angles sequence = Ok (angles_of axes).
Proof.
  revert axes. induction sequence as [|axis rest IH]; intros axes;
    cbn [decode_axes symbolic_angles].
  - intros [= <-]. reflexivity.
  - destruct (axis_of_code axis) as [a|] eqn:Ea; [|discriminate].
    destruct (decode_axes rest) as [l|]; [|discriminate].
    intros [= <-]. rewrite (angle_map_decode _ Ea). cbn [bind].
    now rewrite (IH l).
Qed.

Lemma symbolic_loop_decode (sequence : list Z) (axes : list Axis) :
  decode_axes sequence = Some axes ->
  forall (angles : list expr) (dcm : matrix expr),
    symbolic_loop dcm (combine sequence angles)
    = Ok (fold_left (fun m p => dot m (elementary (fst p) (snd p)))
                    (combine axes angles) dcm).
Proof.
  revert axes. induction sequence as [|axis rest IH]; intros axes; cbn.
  - intros [= <-] angles dcm. reflexivity.
  - destruct (axis_of_code axis) as [a|] eqn:Ea; [|discriminate].
    destruct (decode_axes rest) as [l|]; [|discriminate].
    intros [= <-] [|angle angles] dcm; [reflexivity|].
    cbn. rewrite (create_symbolic_rotation_decode _ _ Ea).
    now apply IH.
Qed.

Lemma get_symbolic_dcm_decode (sequence : list Z) (axes : list Axis) :
  decode_axes sequence = Some axes ->
  get_symbolic_dcm sequence = Ok (compose (combine axes (angles_of axes))).
Proof.
  intros D. unfold get_symbolic_dcm.
  rewrite (symbolic_angles_decode _ D). cbn [bind].
  now apply symbolic_loop_decode.
Qed.

Lemma symbolic_angles_invalid (sequence : list Z) (axis : Z) :
  first_invalid sequence = Some axis ->
  symbolic_angles sequence = Raise (KeyError axis).
Proof.
  induction sequence as [|x rest IH]; cbn [first_invalid symbolic_angles];
    [discriminate|].
  unfold valid_axis. destruct (axis_of_code x) as [a|] eqn:Ex.
  - intros F. rewrite (angle_map_decode _ Ex). cbn [bind]. now rewrite (IH F).
  - intros [= <-]. now rewrite (angle_map_invalid _ Ex).
Qed.

Lemma first_invalid_none_decode (sequence : list Z) :
  first_invalid sequence = None ->
  exists axes, decode_axes sequence = Some axes.
Proof.
  induction sequence as [|x rest IH]; cbn [first_invalid decode_axes].
  - intros _. now exists [].
  - unfold valid_axis. destruct (axis_of_code x) as [a|]; [|discriminate].
    intros F. destruct (IH F) as [l ->]. now exists (a :: l).
Qed.

(** [get_symbolic_dcm] either returns a matrix or raises [KeyError] on the
    first axis that is not a key of [angle_map]; the product with [None] is
    never reached. *)
Lemma get_symbolic_dcm_outcome (sequence : list Z) :
  match first_invalid sequence with
  | None => exists dcm, get_symbolic_dcm sequence = Ok dcm
  | Some axis => get_symbolic_dcm sequence = Raise (KeyError axis)
  end.
Proof.
  destruct (first_invalid sequence) as [axis|] eqn:F.
  - unfold get_symbolic_dcm. now rewrite (symbolic_angles_invalid _ F).
  - destruct (first_invalid_none_decode _ F) as [axes D].
    eexists. apply get_symbolic_dcm_decode. exact D.
Qed.

(** In [euler_to_dcm] the builder's error leaves the loop at the first axis
    that is not 1, 2 or 3. *)
Lemma euler_to_dcm_invalid {A} {S : Scalar A} (sequence : list Z)
      (angles : list A) (axis : Z) :
  length sequence = length angles ->
  first_invalid sequence = Some axis ->
  euler_to_dcm sequence angles
  = Raise (ValueError "Axis must be 1, 2, or 3"%string).
Proof.
  intros L F. unfold euler_to_dcm. rewrite L, Nat.eqb_refl. cbn [negb].
  generalize (@eye A S). revert angles L F.
  induction sequence as [|x rest IH]; intros [|angle angles] L F dcm;
    try discriminate.
  cbn [first_invalid] in F. cbn [combine euler_loop].
  unfold valid_axis in F. destruct (axis_of_code x) as [a|] eqn:Ex.
  - rewrite (create_rotation_matrix_decode _ _ Ex). cbn [bind].
    apply IH; [now injection L | exact F].
  - rewrite (create_rotation_matrix_invalid _ _ Ex). reflexivity.
Qed.

(** ** Values of the symbolic matrices *)

Section DenoteFacts.
Context {A : Type} {S : Scalar A}.

Lemma denote_dot (v : symbol -> A) (m n : matrix expr) :
  denote_matrix v (dot m n) = dot (denote_matrix v m) (denote_matrix v n).
Proof. reflexivity. Qed.

Lemma denote_transpose (v : symbol -> A) (m : matrix expr) :
  denote_matrix v (transpose m) = transpose (denote_matrix v m).
Proof. reflexivity. Qed.

Lemma denote_eye (v : symbol -> A) : denote_matrix v eye = eye.
Proof. reflexivity. Qed.

Lemma denote_elementary (v : symbol -> A) (a : Axis) (e : expr) :
  denote_matrix v (elementary a e) = elementary a (denote v e).
Proof. destruct a; reflexivity. Qed.

Lemma denote_compose (v : symbol -> A) (pairs : list (Axis * expr)) :
  denote_matrix v (compose pairs) = compose (at_values v pairs).
Proof.
  unfold compose. rewrite <- (denote_eye v). generalize (@eye expr _).
  induction pairs as [|p rest IH]; intros acc; cbn [fold_left at_values map].
  - reflexivity.
  - rewrite IH, denote_dot, denote_elementary. reflexivity.
Qed.
End DenoteFacts.

(** ** The reals are a model *)

#[export] Instance real_cring : CRing R.
Proof.
  constructor; intros; cbn; unfold ssub; cbn; ring.
Qed.

Lemma real_pythagorean : Pythagorean R.
Proof.
  intros a. cbn. pose proof (sin2_cos2 a) as E. unfold Rsqr in E. lra.
Qed.

Lemma real_parity : TrigParity R.
Proof. intros a. cbn. split; [apply cos_neg | apply sin_neg]. Qed.

Lemma real_at_zero : TrigAtZero R.
Proof. split; cbn; [apply cos_0 | apply sin_0]. Qed.

(** ** The notebook's own outputs *)

Section Displayed.
Context {A : Type} {S : Scalar A} {CR : CRing A}.

Add Ring displayed_ring :
  (CR : ring_theory szero sone sadd smul ssub sopp eq).

Lemma aircraft_displayed_value (v : symbol -> A) :
  denote_matrix v
    (compose [(AxisZ, ESym psi); (AxisY, ESym theta); (AxisX, ESym phi)])
  = denote_matrix v aircraft_displayed.
Proof.
  unfold denote_matrix, aircraft_displayed, compose.
  cbn. f_equal; ring.
Qed.
End Displayed.

(** The symbolic pipeline on [3, 2, 1] returns the matrix that the notebook
    displays, and the numeric code run on the three symbols returns the
    same tree. *)
Example aircraft_symbolic_output :
  exists dcm,
    get_symbolic_dcm [3; 2; 1]%Z = Ok dcm
    /\ euler_to_dcm [3; 2; 1]%Z [ESym psi; ESym theta; ESym phi] = Ok dcm
    /\ ring_identity dcm aircraft_displayed.
Proof.
  eexists. repeat apply conj; [reflexivity | reflexivity |].
  intros A S CR v. apply aircraft_displayed_value.
Qed.

(** ** The Elementary Rotation Builder *)

(** C1.  For every angle, the numeric builder [create_rotation_matrix] and
    the symbolic builder [create_symbolic_rotation] return, for axis 1,
    [[1,0,0],[0,cos,-sin],[0,sin,cos]]; for axis 2,
    [[cos,0,sin],[0,1,0],[-sin,0,cos]]; for axis 3,
    [[cos,-sin,0],[sin,cos,0],[0,0,1]]. *)
Theorem builder_returns_specified_matrix :
  forall (A : Type) (S : Scalar A) (angle : A) (x : expr),
    (create_rotation_matrix 1 angle
     = Ok (Mat sone szero szero
               szero (scos angle) (sopp (ssin angle))
               szero (ssin angle) (scos angle))
     /\ create_rotation_matrix 2 angle
        = Ok (Mat (scos angle) szero (ssin angle)
                  szero sone szero
                  (sopp (ssin angle)) szero (scos angle))
     /\ create_rotation_matrix 3 angle
        = Ok (Mat (scos angle) (sopp (ssin angle)) szero
                  (ssin angle) (scos angle) szero
                  szero szero sone))
    /\
    (create_symbolic_rotation 1 x
     = Some (Mat (EInt 1) (EInt 0) (EInt 0)
                 (EInt 0) (ECos x) (ENeg (ESin x))
                 (EInt 0) (ESin x) (ECos x))
     /\ create_symbolic_rotation 2 x
        = Some (Mat (ECos x) (EInt 0) (ESin x)
                    (EInt 0) (EInt 1) (EInt 0)
                    (ENeg (ESin x)) (EInt 0) (ECos x))
     /\ create_symbolic_rotation 3 x
        = Some (Mat (ECos x) (ENeg (ESin x)) (EInt 0)
                    (ESin x) (ECos x) (EInt 0)
                    (EInt 0) (EInt 0) (EInt 1))).
Proof.
  intros A S angle x. repeat split.
Qed.

(** ** The Sequence Composer *)

(** C2.  On a non-empty sequence whose axes are all 1, 2 or 3,
    [euler_to_dcm] and [get_symbolic_dcm] return the left fold that starts
    from the identity and multiplies the accumulator on the right by the
    elementary matrix of each pair, in sequence order ([compose]); the pairs
    of the symbolic pipeline carry the symbol of their axis.  On a sequence
    of one pair the result is the builder's output for that pair: the same
    value in the numeric pipeline, the same expression up to the ring laws
    in the symbolic one. *)
Theorem composer_is_left_fold :
  forall (A : Type) (S : Scalar A),
    CRing A ->
    (forall (sequence : list Z) (axes : list Axis) (angles : list A),
        sequence <> [] ->
        decode_axes sequence = Some axes ->
        length sequence = length angles ->
        euler_to_dcm sequence angles = Ok (compose (combine axes angles)))
    /\
    (forall (sequence : list Z) (axes : list Axis),
        sequence <> [] ->
        decode_axes sequence = Some axes ->
        get_symbolic_dcm sequence
        = Ok (compose (combine axes (angles_of axes))))
    /\
    (forall (axis : Z) (angle : A),
        valid_axis axis = true ->
        euler_to_dcm [axis] [angle] = create_rotation_matrix axis angle)
    /\
    (forall (axis : Z) (a : Axis),
        axis_of_code axis = Some a ->
        exists dcm rot,
          get_symbolic_dcm [axis] = Ok dcm
          /\ create_symbolic_rotation axis (ESym (axis_symbol a)) = Some rot
          /\ ring_identity dcm rot).
Proof.
  intros A S CR. repeat apply conj.
  - intros sequence axes angles _ D L. now apply euler_to_dcm_decode.
  - intros sequence axes _ D. now apply get_symbolic_dcm_decode.
  - intros axis angle V. unfold valid_axis in V.
    destruct (axis_of_code axis) as [a|] eqn:Ea; [|discriminate].
    unfold euler_to_dcm. cbn.
    rewrite (create_rotation_matrix_decode _ _ Ea). cbn.
    now rewrite dot_eye_l.
  - intros axis a Ea.
    exists (dot eye (elementary a (ESym (axis_symbol a)))),
           (elementary a (ESym (axis_symbol a))).
    repeat apply conj.
    + unfold get_symbolic_dcm. cbn [symbolic_angles].
      rewrite (angle_map_decode _ Ea). cbn.
      now rewrite (create_symbolic_rotation_decode _ _ Ea).
    + now apply create_symbolic_rotation_decode.
    + intros B SB CRB v. rewrite denote_dot, denote_eye. apply dot_eye_l.
Qed.

Lemma composer_is_left_fold_witness :
  euler_to_dcm [3; 2; 1]%Z [1; 2; 3]%R
  = Ok (compose [(AxisZ, 1%R); (AxisY, 2%R); (AxisX, 3%R)])
  /\ get_symbolic_dcm [3; 2; 1]%Z
     = Ok (compose [(AxisZ, ESym psi); (AxisY, ESym theta);
                    (AxisX, ESym phi)])
  /\ euler_to_dcm [2%Z] [1%R] = create_rotation_matrix 2 1%R.
Proof.
  destruct (@composer_is_left_fold R real_scalar real_cring)
    as (Hn & Hs & H1 & _).
  repeat apply conj.
  - apply (Hn [3; 2; 1]%Z [AxisZ; AxisY; AxisX] [1; 2; 3]%R);
      [discriminate | reflexivity | reflexivity].
  - apply (Hs [3; 2; 1]%Z [AxisZ; AxisY; AxisX]);
      [discriminate | reflexivity].
  - apply H1. reflexivity.
Defined.

(** C4.  When the two lists differ in length, [euler_to_dcm] raises
    [ValueError("Number of axes must match number of angles")]; it returns
    no matrix, whatever the axes are. *)
Theorem length_mismatch_raises :
  forall (A : Type) (S : Scalar A) (sequence : list Z) (angles : list A),
    length sequence <> length angles ->
    euler_to_dcm sequence angles
    = Raise (ValueError "Number of axes must match number of angles"%string).
Proof.
  intros A S sequence angles L. unfold euler_to_dcm.
  apply Nat.eqb_neq in L. now rewrite L.
Qed.

Lemma length_mismatch_raises_witness :
  euler_to_dcm [3; 2; 1]%Z [1; 2]%R
  = Raise (ValueError "Number of axes must match number of angles"%string).
Proof.
  apply (@length_mismatch_raises R real_scalar [3; 2; 1]%Z [1; 2]%R).
  cbn. lia.
Defined.

(** C9.  On two empty lists [euler_to_dcm] raises nothing and returns the
    identity matrix. *)
Theorem empty_sequence_gives_identity :
  forall (A : Type) (S : Scalar A),
    euler_to_dcm (@nil Z) (@nil A) = Ok eye.
Proof. intros A S. reflexivity. Qed.

(** ** Lists of pairs *)

Lemma combine_snoc {X Y} (l : list X) (l' : list Y) (x : X) (y : Y) :
  length l = length l' ->
  combine (l ++ [x]) (l' ++ [y]) = combine l l' ++ [(x, y)].
Proof.
  revert l'. induction l as [|a l IH]; intros [|b l'] L;
    try discriminate; cbn.
  - reflexivity.
  - f_equal. apply IH. now injection L.
Qed.

Lemma combine_rev_rev {X Y} (l : list X) (l' : list Y) :
  length l = length l' ->
  combine (rev l) (rev l') = rev (combine l l').
Proof.
  revert l'. induction l as [|a l IH]; intros [|b l'] L;
    try discriminate; cbn.
  - reflexivity.
  - injection L as L. rewrite combine_snoc, IH; auto.
    now rewrite !length_rev.
Qed.

Lemma combine_map_r {X Y Y'} (f : Y -> Y') (l : list X) (l' : list Y) :
  combine l (map f l') = map (fun p => (fst p, f (snd p))) (combine l l').
Proof.
  revert l'. induction l as [|a l IH]; intros [|b l']; cbn; try reflexivity.
  f_equal. apply IH.
Qed.

Lemma decode_axes_snoc (sequence : list Z) (axes : list Axis)
      (axis : Z) (a : Axis) :
  decode_axes sequence = Some axes ->
  axis_of_code axis = Some a ->
  decode_axes (sequence ++ [axis]) = Some (axes ++ [a]).
Proof.
  revert axes. induction sequence as [|x rest IH]; intros axes; cbn.
  - intros [= <-] ->. reflexivity.
  - destruct (axis_of_code x); [|discriminate].
    destruct (decode_axes rest) as [l|]; [|discriminate].
    intros [= <-] Ea. now rewrite (IH l eq_refl Ea).
Qed.

Lemma decode_axes_rev (sequence : list Z) (axes : list Axis) :
  decode_axes sequence = Some axes ->
  decode_axes (rev sequence) = Some (rev axes).
Proof.
  revert axes. induction sequence as [|x rest IH]; intros axes; cbn.
  - intros [= <-]. reflexivity.
  - destruct (axis_of_code x) as [a|] eqn:Ea; [|discriminate].
    destruct (decode_axes rest) as [l|]; [|discriminate].
    intros [= <-]. cbn. now apply decode_axes_snoc; [apply IH|].
Qed.

Lemma decode_axes_nth (sequence : list Z) (axes : list Axis) (i : nat) :
  decode_axes sequence = Some axes ->
  nth_error axes i
  = match nth_error sequence i with
    | Some axis => axis_of_code axis
    | None => None
    end.
Proof.
  revert axes i. induction sequence as [|x rest IH]; intros axes i; cbn.
  - intros [= <-]. now destruct i.
  - destruct (axis_of_code x) as [a|] eqn:Ea; [|discriminate].
    destruct (decode_axes rest) as [l|]; [|discriminate].
    intros [= <-]. destruct i as [|i]; cbn; [now rewrite Ea|].
    now apply IH.
Qed.

Lemma symbolic_angles_inv (sequence : list Z) (angles : list expr) :
  symbolic_angles sequence = Ok angles ->
  exists axes, decode_axes sequence = Some axes /\ angles = angles_of axes.
Proof.
  revert angles.
  induction sequence as [|x rest IH]; intros angles;
    cbn [symbolic_angles decode_axes].
  - intros [= <-]. now exists [].
  - destruct (axis_of_code x) as [a|] eqn:Ea.
    + rewrite (angle_map_decode _ Ea). cbn [bind].
      destruct (symbolic_angles rest) as [l|e]; cbn [bind]; [|discriminate].
      intros [= <-]. destruct (IH l eq_refl) as (axes & -> & ->).
      now exists (a :: axes).
    + now rewrite (angle_map_invalid _ Ea).
Qed.

Lemma symbol_for_decode (axis : Z) :
  symbol_for axis
  = match axis_of_code axis with
    | Some a => Some (ESym (axis_symbol a))
    | None => None
    end.
Proof.
  pose proof (axis_of_code_cases axis) as C.
  destruct (axis_of_code axis) as [[]|]; try (subst axis; reflexivity).
  destruct C as (N1 & N2 & N3).
  destruct axis as [|[p|p|]|p]; try reflexivity; try congruence;
    destruct p; try reflexivity; congruence.
Qed.

(** ** Axes that are not 1, 2 or 3 *)





(** ** Algebraic properties of the composed matrix *)

(** C5.  For every sequence of axes in 1, 2, 3 (empty or not), the composed
    matrix times its own transpose is the identity.  Numeric pipeline: in
    every commutative ring of scalars with [cos^2 + sin^2 = 1], so in exact
    arithmetic; the rounding of float64 is outside the model.  Symbolic
    pipeline: as a symbolic identity after trigonometric simplification
    ([trig_identity]). *)
Theorem composed_dcm_orthogonal :
  forall (A : Type) (S : Scalar A),
    CRing A -> Pythagorean A ->
    (forall (sequence : list Z) (angles : list A),
        forallb valid_axis sequence = true ->
        length sequence = length angles ->
        exists dcm,
          euler_to_dcm sequence angles = Ok dcm
          /\ dot dcm (transpose dcm) = eye)
    /\
    (forall sequence : list Z,
        forallb valid_axis sequence = true ->
        exists dcm,
          get_symbolic_dcm sequence = Ok dcm
          /\ trig_identity (dot dcm (transpose dcm)) eye).
Proof.
  intros A S CR P. split.
  - intros sequence angles V L.
    destruct (forallb_valid_decode _ V) as [axes D].
    exists (compose (combine axes angles)). split.
    + now apply euler_to_dcm_decode.
    + now apply compose_orthogonal.
  - intros sequence V.
    destruct (forallb_valid_decode _ V) as [axes D].
    exists (compose (combine axes (angles_of axes))). split.
    + now apply get_symbolic_dcm_decode.
    + intros B SB CRB PB v.
      rewrite denote_dot, denote_transpose, denote_compose, denote_eye.
      now apply compose_orthogonal.
Qed.

Lemma composed_dcm_orthogonal_witness :
  (exists dcm,
      euler_to_dcm [3; 1; 3]%Z [1; 2; 3]%R = Ok dcm
      /\ dot dcm (transpose dcm) = eye)
  /\ (exists dcm,
         get_symbolic_dcm [3; 2; 1]%Z = Ok dcm
         /\ trig_identity (dot dcm (transpose dcm)) eye).
Proof.
  destruct (@composed_dcm_orthogonal R real_scalar real_cring
              real_pythagorean) as (Hn & Hs).
  split.
  - apply (Hn [3; 1; 3]%Z [1; 2; 3]%R); reflexivity.
  - apply (Hs [3; 2; 1]%Z); reflexivity.
Defined.

(** C6.  [invert] is the transpose.  For every non-empty valid sequence the
    transpose of [euler_to_dcm sequence angles] is what [euler_to_dcm]
    returns on the reversed sequence with every angle negated, in every
    commutative ring of scalars where [cos] is even and [sin] is odd.  The
    transpose that [display_symbolic_dcm] shows has, for all values of the
    symbols, the value of that reversed and negated composition. *)
Theorem inverse_is_reversed_negated :
  forall (A : Type) (S : Scalar A),
    CRing A -> TrigParity A ->
    (forall (sequence : list Z) (angles : list A),
        sequence <> [] ->
        forallb valid_axis sequence = true ->
        length sequence = length angles ->
        exists dcm undo,
          euler_to_dcm sequence angles = Ok dcm
          /\ euler_to_dcm (rev sequence) (map sopp (rev angles)) = Ok undo
          /\ invert dcm = undo)
    /\
    (forall (sequence : list Z) (v : symbol -> A),
        sequence <> [] ->
        forallb valid_axis sequence = true ->
        exists dcm angles undo,
          get_symbolic_dcm sequence = Ok dcm
          /\ symbolic_angles sequence = Ok angles
          /\ euler_to_dcm (rev sequence)
                          (map sopp (rev (map (denote v) angles))) = Ok undo
          /\ denote_matrix v (invert dcm) = undo).
Proof.
  intros A S CR P.
  assert (Hnum : forall (sequence : list Z) (axes : list Axis)
                        (angles : list A),
             decode_axes sequence = Some axes ->
             length sequence = length angles ->
             euler_to_dcm (rev sequence) (map sopp (rev angles))
             = Ok (transpose (compose (combine axes angles)))).
  { intros sequence axes angles D L.
    rewrite (@euler_to_dcm_decode _ _ (rev sequence) (rev axes)).
    - f_equal. rewrite compose_transpose by assumption.
      unfold reverse_negated.
      rewrite map_rev, combine_rev_rev, combine_map_r; [reflexivity|].
      rewrite length_map, (decode_axes_length _ D). exact L.
    - now apply decode_axes_rev.
    - now rewrite length_map, !length_rev. }
  split.
  - intros sequence angles _ V L.
    destruct (forallb_valid_decode _ V) as [axes D].
    exists (compose (combine axes angles)),
           (transpose (compose (combine axes angles))).
    repeat apply conj; [now apply euler_to_dcm_decode | | reflexivity].
    now apply Hnum.
  - intros sequence v _ V.
    destruct (forallb_valid_decode _ V) as [axes D].
    exists (compose (combine axes (angles_of axes))), (angles_of axes),
           (transpose (compose (combine axes
                                        (map (denote v) (angles_of axes))))).
    repeat apply conj.
    + now apply get_symbolic_dcm_decode.
    + now apply symbolic_angles_decode.
    + apply Hnum; [assumption|].
      unfold angles_of. rewrite !length_map.
      symmetry. now apply decode_axes_length.
    + unfold invert. rewrite denote_transpose, denote_compose.
      unfold at_values. now rewrite <- combine_map_r.
Qed.

Lemma inverse_is_reversed_negated_witness :
  exists dcm undo,
    euler_to_dcm [3; 2; 1]%Z [1; 2; 3]%R = Ok dcm
    /\ euler_to_dcm [1; 2; 3]%Z [(- 3)%R; (- 2)%R; (- 1)%R] = Ok undo
    /\ invert dcm = undo.
Proof.
  destruct (@inverse_is_reversed_negated R real_scalar real_cring
              real_parity) as (Hn & _).
  apply (Hn [3; 2; 1]%Z [1; 2; 3]%R);
    [discriminate | reflexivity | reflexivity].
Defined.

(** C7.  When every axis is 1, 2 or 3 and every angle is 0, [euler_to_dcm]
    returns the identity matrix, in every commutative ring of scalars with
    [cos 0 = 1] and [sin 0 = 0]. *)
Theorem zero_angles_give_identity :
  forall (A : Type) (S : Scalar A),
    CRing A -> TrigAtZero A ->
    forall (sequence : list Z) (angles : list A),
      forallb valid_axis sequence = true ->
      length sequence = length angles ->
      Forall (fun angle => angle = szero) angles ->
      euler_to_dcm sequence angles = Ok eye.
Proof.
  intros A S CR P sequence angles V L F.
  destruct (forallb_valid_decode _ V) as [axes D].
  rewrite (@euler_to_dcm_decode _ _ _ _ _ D L). f_equal.
  apply compose_zero; [assumption|].
  apply Forall_forall. intros [a angle] I. cbn.
  apply in_combine_r in I.
  now apply (proj1 (Forall_forall _ angles) F).
Qed.

Lemma zero_angles_give_identity_witness :
  euler_to_dcm [3; 1; 3; 2]%Z [0; 0; 0; 0]%R = Ok eye.
Proof.
  apply (@zero_angles_give_identity R real_scalar real_cring real_at_zero
           [3; 1; 3; 2]%Z [0; 0; 0; 0]%R);
    [reflexivity | reflexivity | repeat constructor].
Defined.

(** ** The angles of the symbolic pipeline *)

(** C10.  [get_symbolic_dcm] has the axis sequence as its only argument.
    The angle at each position of its list [angles] is the symbol that the
    fixed mapping 1 to phi, 2 to theta, 3 to psi gives the axis at that
    position, so two positions with the same axis carry the same symbol; in
    the 3-1-3 sequence both rotations about axis 3 are by psi. *)
Theorem symbolic_angle_from_axis_only :
  (forall (sequence : list Z) (angles : list expr),
      symbolic_angles sequence = Ok angles ->
      (forall i : nat,
          nth_error angles i
          = match nth_error sequence i with
            | Some axis => symbol_for axis
            | None => None
            end)
      /\ (forall i j : nat,
             nth_error sequence i = nth_error sequence j ->
             nth_error angles i = nth_error angles j))
  /\ symbolic_angles [3; 1; 3]%Z = Ok [ESym psi; ESym phi; ESym psi]
  /\ get_symbolic_dcm [3; 1; 3]%Z
     = Ok (dot (dot (dot eye (elementary AxisZ (ESym psi)))
                    (elementary AxisX (ESym phi)))
               (elementary AxisZ (ESym psi))).
Proof.
  assert (Hpos : forall (sequence : list Z) (angles : list expr),
             symbolic_angles sequence = Ok angles ->
             forall i : nat,
               nth_error angles i
               = match nth_error sequence i with
                 | Some axis => symbol_for axis
                 | None => None
                 end).
  { intros sequence angles E i.
    destruct (symbolic_angles_inv _ E) as (axes & D & ->).
    unfold angles_of. rewrite nth_error_map, (decode_axes_nth _ i D).
    destruct (nth_error sequence i) as [axis|]; [|reflexivity].
    rewrite symbol_for_decode. now destruct (axis_of_code axis). }
  repeat apply conj; try reflexivity.
  intros sequence angles E. split.
  - now apply Hpos.
  - intros i j Eij. rewrite !(Hpos _ _ E), Eij. reflexivity.
Qed.

Lemma symbolic_angle_from_axis_only_witness :
  nth_error [ESym psi; ESym phi; ESym psi] 0
  = nth_error [ESym psi; ESym phi; ESym psi] 2.
Proof.
  destruct symbolic_angle_from_axis_only as (H & _).
  destruct (H [3; 1; 3]%Z [ESym psi; ESym phi; ESym psi] eq_refl) as (_ & Hsame).
  apply (Hsame 0%nat 2%nat). reflexivity.
Defined.

(** ** The aircraft example, over the reals *)

Local Open Scope R_scope.

Lemma PI_bounds : 3.14159265 < PI < 3.14159266.
Proof.
  pose proof (PI_2_3_7_ineq 4) as [Hlo Hhi].
  unfold PI_2_3_7_tg, tg_alt, Ratan_seq in Hlo, Hhi.
  cbn [sum_f_R0 Nat.mul Nat.add] in Hlo, Hhi.
  cbn [pow INR] in Hlo, Hhi.
  split; lra.
Qed.

Lemma INR_fact_values :
  INR (fact 0) = 1 /\ INR (fact 1) = 1 /\ INR (fact 2) = 2
  /\ INR (fact 3) = 6 /\ INR (fact 4) = 24 /\ INR (fact 5) = 120
  /\ INR (fact 6) = 720 /\ INR (fact 7) = 5040
  /\ INR (fact 8) = 40320 /\ INR (fact 9) = 362880.
Proof.
  repeat split; rewrite INR_IZR_INZ; apply (f_equal IZR);
    vm_compute; reflexivity.
Qed.

(** The alternating Taylor sums of [cos] and [sin] bracket their values;
    on [lo <= a <= hi] each power is bracketed on its own. *)
Lemma taylor_bounds (a lo hi : R) :
  0 <= lo -> lo <= a -> a <= hi -> hi <= 1 ->
  (1 - hi ^ 2 / 2 + lo ^ 4 / 24 - hi ^ 6 / 720 <= cos a
   /\ cos a <= 1 - lo ^ 2 / 2 + hi ^ 4 / 24 - lo ^ 6 / 720 + hi ^ 8 / 40320)
  /\ (lo - hi ^ 3 / 6 + lo ^ 5 / 120 - hi ^ 7 / 5040 <= sin a
      /\ sin a <= hi - lo ^ 3 / 6 + hi ^ 5 / 120 - lo ^ 7 / 5040
                  + hi ^ 9 / 362880).
Proof.
  intros H0 Hlo Hhi H1.
  pose proof PI_bounds as [P1 P2].
  destruct (COS a) as [Cl Cu]; [lra | lra |].
  destruct (SIN a) as [Sl Su]; [lra | lra |].
  unfold cos_lb, cos_ub, cos_approx, cos_term in Cl, Cu.
  unfold sin_lb, sin_ub, sin_approx, sin_term in Sl, Su.
  cbn [sum_f_R0 Nat.mul Nat.add] in Cl, Cu, Sl, Su.
  destruct INR_fact_values
    as (F0 & F1 & F2 & F3 & F4 & F5 & F6 & F7 & F8 & F9).
  rewrite ?F0, ?F2, ?F4, ?F6 in Cl.
  rewrite ?F0, ?F2, ?F4, ?F6, ?F8 in Cu.
  rewrite ?F1, ?F3, ?F5, ?F7 in Sl.
  rewrite ?F1, ?F3, ?F5, ?F7, ?F9 in Su.
  assert (L : forall n, lo ^ n <= a ^ n) by (intros n; apply pow_incr; lra).
  assert (U : forall n, a ^ n <= hi ^ n) by (intros n; apply pow_incr; lra).
  pose proof (L 1%nat); pose proof (L 2%nat); pose proof (L 3%nat);
    pose proof (L 4%nat); pose proof (L 5%nat); pose proof (L 6%nat);
    pose proof (L 7%nat); pose proof (L 8%nat); pose proof (L 9%nat).
  pose proof (U 1%nat); pose proof (U 2%nat); pose proof (U 3%nat);
    pose proof (U 4%nat); pose proof (U 5%nat); pose proof (U 6%nat);
    pose proof (U 7%nat); pose proof (U 8%nat); pose proof (U 9%nat).
  repeat split; lra.
Qed.

Lemma sqrt3_bounds : 1.73205080 < sqrt 3 < 1.73205081.
Proof.
  assert (H : 0 <= sqrt 3) by apply sqrt_pos.
  assert (E : sqrt 3 * sqrt 3 = 3) by (apply sqrt_sqrt; lra).
  split; nra.
Qed.

Lemma trig_30 :
  sin (radians 30) = 1 / 2
  /\ 0.8660254 < cos (radians 30) < 0.86602541.
Proof.
  replace (radians 30) with (PI / 6) by (unfold radians; field).
  rewrite sin_PI6, cos_PI6. pose proof sqrt3_bounds. split; lra.
Qed.

Lemma trig_15 :
  0.96592582 < cos (radians 15) < 0.96592583
  /\ 0.25881904 < sin (radians 15) < 0.25881905.
Proof.
  pose proof PI_bounds as [P1 P2].
  destruct (@taylor_bounds (radians 15) (15 * (3.14159265 / 180))
                           (15 * (3.14159266 / 180)))
    as [[Cl Cu] [Sl Su]]; unfold radians in *; lra.
Qed.

Lemma trig_10 :
  0.98480774 < cos (radians 10) < 0.98480776
  /\ 0.17364817 < sin (radians 10) < 0.17364818.
Proof.
  pose proof PI_bounds as [P1 P2].
  destruct (@taylor_bounds (radians 10) (10 * (3.14159265 / 180))
                           (10 * (3.14159266 / 180)))
    as [[Cl Cu] [Sl Su]]; unfold radians in *; lra.
Qed.

Lemma product_bounds (x y lx hx ly hy : R) :
  lx < x -> x < hx -> ly < y -> y < hy -> 0 <= lx -> 0 <= ly ->
  lx * ly < x * y < hx * hy.
Proof. intros. split; nra. Qed.

Ltac bracket_product Hx Hy :=
  let B := fresh "B" in
  pose proof (@product_bounds _ _ _ _ _ _
                (proj1 Hx) (proj2 Hx) (proj1 Hy) (proj2 Hy)) as B;
  specialize (B ltac:(lra) ltac:(lra)).

(** Every entry of the aircraft matrix lies within [4 / 10^7] of the
    printed one: the printed digits hold with a tenth of a unit of the last
    decimal to spare. *)
Lemma aircraft_dcm_margin :
  exists dcm,
    euler_to_dcm aircraft_sequence aircraft_angles_rad = Ok dcm
    /\ entrywise_related (within (4 / 10000000)) dcm aircraft_printed.
Proof.
  eexists. split; [reflexivity|].
  destruct trig_30 as [S30 C30], trig_15 as [C15 S15], trig_10 as [C10 S10].
  unfold entrywise_related, within, aircraft_printed.
  cbn [m11 m12 m13 m21 m22 m23 m31 m32 m33 dot eye
       szero sone sadd smul sopp scos ssin real_scalar].
  rewrite S30.
  generalize dependent (cos (radians 30)). intros r C30.
  generalize dependent (cos (radians 15)). intros c15 C15.
  generalize dependent (sin (radians 15)). intros s15 S15.
  generalize dependent (cos (radians 10)). intros c10 C10.
  generalize dependent (sin (radians 10)). intros s10 S10.
  bracket_product C30 C15. bracket_product C30 S15.
  bracket_product C30 C10. bracket_product C30 S10.
  bracket_product S15 S10. bracket_product S15 C10.
  bracket_product C15 S10. bracket_product C15 C10.
  bracket_product B0 S10. bracket_product B0 C10.
  repeat split; apply Rabs_def1; lra.
Qed.

(** C8.  The sequence [3,2,1] with the angles 30, 15 and 10 degrees in
    radians composes, in real arithmetic, to a matrix that shows to six
    decimals as [[0.836516, -0.453482, 0.307563],
    [0.482963, 0.875340, -0.022940], [-0.258819, 0.167731, 0.951251]]. *)
Theorem aircraft_dcm_to_six_decimals :
  exists dcm,
    euler_to_dcm [3; 2; 1]%Z [radians 30; radians 15; radians 10] = Ok dcm
    /\ matrix_shows_as dcm
         (Mat 836516 (-453482) 307563
              482963 875340 (-22940)
              (-258819) 167731 951251)%Z.
Proof.
  destruct aircraft_dcm_margin as (dcm & E & M).
  exists dcm. split; [exact E|].
  unfold matrix_shows_as, shows_as, entrywise_related, within in *.
  cbn [m11 m12 m13 m21 m22 m23 m31 m32 m33 aircraft_printed] in *.
  repeat split; lra.
Qed.

(** * Further properties of the code *)

(** ** Outcomes of the two composers *)

Lemma first_invalid_forallb (sequence : list Z) :
  first_invalid sequence = None <-> forallb valid_axis sequence = true.
Proof.
  induction sequence as [|x rest IH]; cbn [first_invalid forallb].
  - tauto.
  - destruct (valid_axis x); cbn [andb]; [exact IH|].
    split; discriminate.
Qed.

Lemma first_invalid_spec (sequence : list Z) (axis : Z) :
  first_invalid sequence = Some axis ->
  In axis sequence /\ valid_axis axis = false.
Proof.
  induction sequence as [|x rest IH]; cbn [first_invalid]; [discriminate|].
  destruct (valid_axis x) eqn:V.
  - intros F. destruct (IH F). split; [now right | assumption].
  - intros [= <-]. split; [now left | assumption].
Qed.

(** X1.  [euler_to_dcm] returns a matrix exactly when the two lists have
    the same length and every axis is 1, 2 or 3. *)
Theorem euler_to_dcm_returns_iff :
  forall (A : Type) (S : Scalar A) (sequence : list Z) (angles : list A),
    (exists dcm, euler_to_dcm sequence angles = Ok dcm)
    <-> (length sequence = length angles
         /\ forallb valid_axis sequence = true).
Proof.
  intros A S sequence angles. split.
  - intros [dcm E].
    destruct (Nat.eq_dec (length sequence) (length angles)) as [L|L].
    + split; [exact L|]. apply first_invalid_forallb.
      destruct (first_invalid sequence) as [axis|] eqn:F; [|reflexivity].
      rewrite (euler_to_dcm_invalid _ _ L F) in E. discriminate.
    + unfold euler_to_dcm in E. apply Nat.eqb_neq in L.
      rewrite L in E. discriminate.
  - intros [L V]. destruct (forallb_valid_decode _ V) as [axes D].
    eexists. apply euler_to_dcm_decode; eassumption.
Qed.

(** X2.  With lists of equal length, an axis other than 1, 2, 3 anywhere in
    the sequence makes [euler_to_dcm] raise the builder's
    [ValueError("Axis must be 1, 2, or 3")]: the matrices multiplied before
    it are not returned. *)
Theorem euler_to_dcm_invalid_axis :
  forall (A : Type) (S : Scalar A) (sequence : list Z) (angles : list A),
    length sequence = length angles ->
    forallb valid_axis sequence = false ->
    euler_to_dcm sequence angles
    = Raise (ValueError "Axis must be 1, 2, or 3"%string).
Proof.
  intros A S sequence angles L V.
  destruct (first_invalid sequence) as [axis|] eqn:F.
  - exact (euler_to_dcm_invalid _ _ L F).
  - apply first_invalid_forallb in F. congruence.
Qed.

Lemma euler_to_dcm_invalid_axis_witness :
  euler_to_dcm [3; 2; 7; 1]%Z [1; 2; 3; 4]%R
  = Raise (ValueError "Axis must be 1, 2, or 3"%string).
Proof.
  apply (@euler_to_dcm_invalid_axis R real_scalar [3; 2; 7; 1]%Z
           [1; 2; 3; 4]%R); reflexivity.
Defined.

(** X3.  The only exception [get_symbolic_dcm] raises is [KeyError], with
    the first axis of the sequence that is not a key of [angle_map]; the
    builder's [None] never reaches the matrix product. *)
Theorem get_symbolic_dcm_raises_only_key_error :
  forall (sequence : list Z) (e : exn),
    get_symbolic_dcm sequence = Raise e ->
    exists axis,
      e = KeyError axis
      /\ first_invalid sequence = Some axis
      /\ In axis sequence
      /\ valid_axis axis = false.
Proof.
  intros sequence e E.
  pose proof (get_symbolic_dcm_outcome sequence) as O.
  destruct (first_invalid sequence) as [axis|] eqn:F.
  - exists axis. rewrite O in E. injection E as <-.
    destruct (first_invalid_spec _ F). auto.
  - destruct O as [dcm O]. rewrite O in E. discriminate.
Qed.

Lemma get_symbolic_dcm_raises_only_key_error_witness :
  exists axis,
    KeyError 0 = KeyError axis
    /\ first_invalid [3; 0; 5]%Z = Some axis
    /\ In axis [3; 0; 5]%Z
    /\ valid_axis axis = false.
Proof.
  apply (@get_symbolic_dcm_raises_only_key_error [3; 0; 5]%Z (KeyError 0)).
  reflexivity.
Defined.

(** X4.  [get_symbolic_dcm] returns a matrix exactly when every axis is 1,
    2 or 3; the empty sequence gives the identity. *)
Theorem get_symbolic_dcm_returns_iff :
  forall sequence : list Z,
    ((exists dcm, get_symbolic_dcm sequence = Ok dcm)
     <-> forallb valid_axis sequence = true)
    /\ (sequence = [] -> get_symbolic_dcm sequence = Ok eye).
Proof.
  intros sequence. split; [|intros ->; reflexivity].
  pose proof (get_symbolic_dcm_outcome sequence) as O.
  rewrite <- first_invalid_forallb.
  destruct (first_invalid sequence) as [axis|].
  - split; [|discriminate]. intros [dcm E]. rewrite O in E. discriminate.
  - split; [reflexivity | intros _; exact O].
Qed.

(** ** More matrix algebra *)

Section MoreAlgebra.
Context {A : Type} {S : Scalar A} {CR : CRing A}.
Local Open Scope scalar_scope.

Add Ring more_scalar_ring :
  (CR : ring_theory szero sone sadd smul ssub sopp eq).

Lemma det_dot (a b : matrix A) : det (dot a b) = det a * det b.
Proof.
  unfold det, dot. cbn [m11 m12 m13 m21 m22 m23 m31 m32 m33]. ring.
Qed.

Lemma det_eye : det (@eye A S) = sone.
Proof.
  unfold det, eye. cbn [m11 m12 m13 m21 m22 m23 m31 m32 m33]. ring.
Qed.

Lemma det_elementary (a : Axis) (angle : A) :
  Pythagorean A -> det (elementary a angle) = sone.
Proof.
  intros P. rewrite <- (P angle).
  destruct a; unfold det, elementary;
    cbn [m11 m12 m13 m21 m22 m23 m31 m32 m33]; ring.
Qed.

Lemma det_compose (pairs : list (Axis * A)) :
  Pythagorean A -> det (compose pairs) = sone.
Proof.
  intros P. induction pairs as [|p rest IH].
  - apply det_eye.
  - rewrite compose_cons, det_dot, IH, det_elementary by assumption. ring.
Qed.

Lemma elementary_orthogonal_left (a : Axis) (angle : A) :
  Pythagorean A ->
  dot (transpose (elementary a angle)) (elementary a angle) = eye.
Proof.
  intros P. pose proof (P angle) as E.
  assert (E' : ssin angle * ssin angle + scos angle * scos angle = sone)
    by (rewrite <- E; ring).
  destruct a; unfold elementary, dot, transpose, eye;
    cbn [m11 m12 m13 m21 m22 m23 m31 m32 m33]; f_equal;
    try ring; try (rewrite <- E; ring); try (rewrite <- E'; ring).
Qed.

Lemma compose_orthogonal_left (pairs : list (Axis * A)) :
  Pythagorean A ->
  dot (transpose (compose pairs)) (compose pairs) = eye.
Proof.
  intros P. induction pairs as [|p rest IH].
  - unfold compose; cbn [fold_left]. apply dot_eye_l.
  - rewrite compose_cons, transpose_dot, dot_assoc.
    rewrite <- (dot_assoc (transpose (elementary _ _))).
    now rewrite elementary_orthogonal_left, dot_eye_l.
Qed.

Lemma compose_app (l1 l2 : list (Axis * A)) :
  compose (l1 ++ l2) = dot (compose l1) (compose l2).
Proof.
  unfold compose at 1. rewrite fold_left_app. apply fold_dot_from.
Qed.

Lemma elementary_add (a : Axis) (x y : A) :
  TrigAddition A ->
  dot (elementary a x) (elementary a y) = elementary a (x + y).
Proof.
  intros T. destruct (T x y) as [Ec Es].
  destruct a; unfold elementary, dot;
    cbn [m11 m12 m13 m21 m22 m23 m31 m32 m33];
    rewrite Ec, Es; f_equal; ring.
Qed.

Ltac by_entry E proj :=
  let E' := fresh "E" in
  pose proof (f_equal proj E) as E';
  cbn [m11 m12 m13 m21 m22 m23 m31 m32 m33] in E';
  match type of E' with
  | ?L = ?R =>
      first [ transitivity (ssub L R); [ring | rewrite E'; ring]
            | transitivity (ssub R L); [ring | rewrite E'; ring] ]
  end.

(** Two different axes: the two orders of multiplication differ in an
    entry that is 0 on one side and [sin x * sin y] on the other. *)
Lemma elementary_order (a b : Axis) (x y : A) :
  a <> b ->
  dot (elementary a x) (elementary b y)
  = dot (elementary b y) (elementary a x) ->
  ssin x * ssin y = szero.
Proof.
  intros N E.
  destruct a, b; try congruence; unfold elementary, dot in E;
    first [ by_entry E (@m12 A) | by_entry E (@m13 A) | by_entry E (@m21 A)
          | by_entry E (@m23 A) | by_entry E (@m31 A) | by_entry E (@m32 A) ].
Qed.
End MoreAlgebra.

Lemma real_addition : TrigAddition R.
Proof.
  intros a b. cbn. rewrite cos_plus, sin_plus. split; ring.
Qed.

Lemma combine_app_eq {X Y} (l1 l2 : list X) (k1 k2 : list Y) :
  length l1 = length k1 ->
  combine (l1 ++ l2) (k1 ++ k2) = combine l1 k1 ++ combine l2 k2.
Proof.
  revert k1. induction l1 as [|x l1 IH]; intros [|y k1] L;
    try discriminate; cbn.
  - reflexivity.
  - f_equal. apply IH. now injection L.
Qed.

Lemma decode_axes_app (s1 s2 : list Z) (x1 x2 : list Axis) :
  decode_axes s1 = Some x1 -> decode_axes s2 = Some x2 ->
  decode_axes (s1 ++ s2) = Some (x1 ++ x2).
Proof.
  revert x1. induction s1 as [|x rest IH]; intros x1; cbn.
  - intros [= <-] D. exact D.
  - destruct (axis_of_code x); [|discriminate].
    destruct (decode_axes rest) as [l|]; [|discriminate].
    intros [= <-] D. now rewrite (IH l eq_refl D).
Qed.

Lemma axis_of_code_injective (axis1 axis2 : Z) (a : Axis) :
  axis_of_code axis1 = Some a -> axis_of_code axis2 = Some a ->
  axis1 = axis2.
Proof.
  intros E1 E2.
  pose proof (axis_of_code_cases axis1) as C1.
  pose proof (axis_of_code_cases axis2) as C2.
  rewrite E1 in C1. rewrite E2 in C2. destruct a; congruence.
Qed.

Lemma Ok_injective {T} (a b : T) : Ok a = Ok b -> a = b.
Proof. now intros [=]. Qed.

(** What a returned matrix tells about the arguments. *)
Lemma euler_to_dcm_ok_inv {A} {S : Scalar A} (sequence : list Z)
      (angles : list A) (dcm : matrix A) :
  euler_to_dcm sequence angles = Ok dcm ->
  exists axes,
    decode_axes sequence = Some axes
    /\ length sequence = length angles
    /\ dcm = compose (combine axes angles).
Proof.
  intros E.
  destruct (Nat.eq_dec (length sequence) (length angles)) as [L|L].
  - destruct (first_invalid sequence) as [axis|] eqn:F.
    + rewrite (euler_to_dcm_invalid _ _ L F) in E. discriminate.
    + destruct (first_invalid_none_decode _ F) as [axes D].
      exists axes. repeat split; try assumption.
      rewrite (@euler_to_dcm_decode _ _ _ _ _ D L) in E. now injection E.
  - unfold euler_to_dcm in E. apply Nat.eqb_neq in L.
    rewrite L in E. discriminate.
Qed.

(** ** Invariants of the returned matrix *)

(** X5.  The transpose of a matrix returned by [euler_to_dcm] is its
    inverse on both sides, in every commutative ring of scalars with
    [cos^2 + sin^2 = 1]. *)
Theorem invert_is_two_sided_inverse :
  forall (A : Type) (S : Scalar A),
    CRing A -> Pythagorean A ->
    forall (sequence : list Z) (angles : list A) (dcm : matrix A),
      euler_to_dcm sequence angles = Ok dcm ->
      dot (invert dcm) dcm = eye /\ dot dcm (invert dcm) = eye.
Proof.
  intros A S CR P sequence angles dcm E.
  destruct (euler_to_dcm_ok_inv _ _ E) as (axes & _ & _ & ->).
  unfold invert. split.
  - now apply compose_orthogonal_left.
  - now apply compose_orthogonal.
Qed.

Lemma invert_is_two_sided_inverse_witness :
  dot (invert (compose [(AxisZ, 1%R); (AxisX, 2%R)]))
      (compose [(AxisZ, 1%R); (AxisX, 2%R)]) = eye
  /\ dot (compose [(AxisZ, 1%R); (AxisX, 2%R)])
         (invert (compose [(AxisZ, 1%R); (AxisX, 2%R)])) = eye.
Proof.
  apply (@invert_is_two_sided_inverse R real_scalar real_cring
           real_pythagorean [3; 1]%Z [1; 2]%R).
  reflexivity.
Defined.

(** X6.  Every matrix returned by [euler_to_dcm] has determinant 1, in
    every commutative ring of scalars with [cos^2 + sin^2 = 1]: a rotation,
    never a reflection. *)
Theorem dcm_determinant_one :
  forall (A : Type) (S : Scalar A),
    CRing A -> Pythagorean A ->
    forall (sequence : list Z) (angles : list A) (dcm : matrix A),
      euler_to_dcm sequence angles = Ok dcm ->
      det dcm = sone.
Proof.
  intros A S CR P sequence angles dcm E.
  destruct (euler_to_dcm_ok_inv _ _ E) as (axes & _ & _ & ->).
  now apply det_compose.
Qed.

Lemma dcm_determinant_one_witness :
  det (compose [(AxisY, 1%R); (AxisX, 2%R); (AxisY, 3%R)]) = 1%R.
Proof.
  apply (@dcm_determinant_one R real_scalar real_cring real_pythagorean
           [2; 1; 2]%Z [1; 2; 3]%R).
  reflexivity.
Defined.

(** ** How sequences compose *)

(** X7.  Composing a concatenation is multiplying the two composed
    matrices: when [euler_to_dcm] returns [d1] on the first part and [d2] on
    the second, it returns [d1 * d2] on the sequences and angles put end to
    end. *)
Theorem euler_to_dcm_concatenation :
  forall (A : Type) (S : Scalar A),
    CRing A ->
    forall (s1 s2 : list Z) (a1 a2 : list A) (d1 d2 : matrix A),
      euler_to_dcm s1 a1 = Ok d1 ->
      euler_to_dcm s2 a2 = Ok d2 ->
      euler_to_dcm (s1 ++ s2) (a1 ++ a2) = Ok (dot d1 d2).
Proof.
  intros A S CR s1 s2 a1 a2 d1 d2 E1 E2.
  destruct (euler_to_dcm_ok_inv _ _ E1) as (x1 & D1 & L1 & ->).
  destruct (euler_to_dcm_ok_inv _ _ E2) as (x2 & D2 & L2 & ->).
  rewrite (@euler_to_dcm_decode _ _ _ (x1 ++ x2)).
  - f_equal. rewrite combine_app_eq, compose_app; [reflexivity|].
    rewrite (decode_axes_length _ D1). exact L1.
  - now apply decode_axes_app.
  - rewrite !length_app. congruence.
Qed.

Lemma euler_to_dcm_concatenation_witness :
  euler_to_dcm ([3; 2] ++ [1])%Z ([1; 2] ++ [3])%R
  = Ok (dot (compose [(AxisZ, 1%R); (AxisY, 2%R)])
            (compose [(AxisX, 3%R)])).
Proof.
  apply (@euler_to_dcm_concatenation R real_scalar real_cring
           [3; 2]%Z [1%Z] [1; 2]%R [3%R]); reflexivity.
Defined.

(** X8.  Two successive rotations about the same axis are one rotation by
    the sum of the angles, wherever [cos] and [sin] obey their addition
    formulas. *)
Theorem same_axis_angles_add :
  forall (A : Type) (S : Scalar A),
    CRing A -> TrigAddition A ->
    forall (axis : Z) (a b : A),
      valid_axis axis = true ->
      euler_to_dcm [axis; axis] [a; b] = euler_to_dcm [axis] [sadd a b].
Proof.
  intros A S CR T axis a b V. unfold valid_axis in V.
  destruct (axis_of_code axis) as [x|] eqn:Ex; [|discriminate].
  rewrite (@euler_to_dcm_decode _ _ [axis; axis] [x; x]);
    [| cbn; now rewrite Ex | reflexivity].
  rewrite (@euler_to_dcm_decode _ _ [axis] [x]);
    [| cbn; now rewrite Ex | reflexivity].
  f_equal. cbn [combine]. rewrite !compose_cons. cbn [fst snd].
  rewrite <- dot_assoc, elementary_add by assumption. reflexivity.
Qed.

Lemma same_axis_angles_add_witness :
  euler_to_dcm [3; 3]%Z [1; 2]%R = euler_to_dcm [3%Z] [(1 + 2)%R].
Proof.
  apply (@same_axis_angles_add R real_scalar real_cring real_addition
           3%Z 1%R 2%R).
  reflexivity.
Defined.

(** X9.  The order of the sequence matters: for two different axes and two
    angles whose sines have a non-zero product, [euler_to_dcm] returns
    different matrices for the two orders. *)
Theorem different_axes_do_not_commute :
  forall (A : Type) (S : Scalar A),
    CRing A ->
    forall (axis1 axis2 : Z) (t1 t2 : A),
      valid_axis axis1 = true -> valid_axis axis2 = true ->
      axis1 <> axis2 ->
      smul (ssin t1) (ssin t2) <> szero ->
      euler_to_dcm [axis1; axis2] [t1; t2]
      <> euler_to_dcm [axis2; axis1] [t2; t1].
Proof.
  intros A S CR axis1 axis2 t1 t2 V1 V2 N H E. apply H.
  unfold valid_axis in V1, V2.
  destruct (axis_of_code axis1) as [x1|] eqn:E1; [|discriminate].
  destruct (axis_of_code axis2) as [x2|] eqn:E2; [|discriminate].
  rewrite (@euler_to_dcm_decode _ _ [axis1; axis2] [x1; x2]) in E;
    [| cbn; now rewrite E1, E2 | reflexivity].
  rewrite (@euler_to_dcm_decode _ _ [axis2; axis1] [x2; x1]) in E;
    [| cbn; now rewrite E1, E2 | reflexivity].
  apply Ok_injective in E. cbn [combine] in E.
  apply (@elementary_order _ _ CR x1 x2).
  - intros ->. apply N. eapply axis_of_code_injective; eassumption.
  - rewrite !compose_cons in E. cbn [fst snd] in E.
    change (compose (@nil (Axis * A))) with (@eye A S) in E.
    rewrite !dot_eye_r in E. exact E.
Qed.

Lemma different_axes_do_not_commute_witness :
  euler_to_dcm [1; 2]%Z [(PI / 2)%R; (PI / 2)%R]
  <> euler_to_dcm [2; 1]%Z [(PI / 2)%R; (PI / 2)%R].
Proof.
  apply (@different_axes_do_not_commute R real_scalar real_cring
           1%Z 2%Z (PI / 2)%R (PI / 2)%R);
    [reflexivity | reflexivity | lia |].
  cbn. rewrite sin_PI2. lra.
Defined.

(** X10.  Over the reals every entry of a matrix returned by
    [euler_to_dcm] lies between -1 and 1: the rows are unit vectors. *)
Theorem dcm_entries_bounded :
  forall (sequence : list Z) (angles : list R) (dcm : matrix R),
    euler_to_dcm sequence angles = Ok dcm ->
    forall value : R, In value (entries dcm) -> -1 <= value <= 1.
Proof.
  intros sequence angles dcm E.
  destruct (euler_to_dcm_ok_inv _ _ E) as (axes & _ & _ & ->).
  pose proof (@compose_orthogonal R _ real_cring (combine axes angles)
                real_pythagorean) as O.
  set (m := compose (combine axes angles)) in *.
  unfold dot, transpose, eye in O.
  cbn [m11 m12 m13 m21 m22 m23 m31 m32 m33
       szero sone sadd smul real_scalar] in O.
  pose proof (f_equal (@m11 R) O) as R1.
  pose proof (f_equal (@m22 R) O) as R2.
  pose proof (f_equal (@m33 R) O) as R3.
  cbn [m11 m22 m33] in R1, R2, R3.
  intros value I. unfold entries, rows_of in I. cbn [concat app In] in I.
  repeat (destruct I as [<-|I]; [nra|]). contradiction.
Qed.

Lemma dcm_entries_bounded_witness :
  -1 <= m12 (compose [(AxisZ, 1); (AxisY, 2)]) <= 1.
Proof.
  apply (@dcm_entries_bounded [3; 2]%Z [1; 2]
           (compose [(AxisZ, 1); (AxisY, 2)]) eq_refl).
  unfold entries, rows_of. cbn [concat app In]. right. left. reflexivity.
Defined.

(** ** The two pipelines agree *)

(** X11.  The two pipelines agree in exact arithmetic.  In every
    commutative ring of scalars and for all values of phi, theta and psi,
    the matrix returned by [get_symbolic_dcm] has the value that
    [euler_to_dcm] returns on the same sequence with the values of the
    pipeline's angles; so has every expression matrix equal to it by the
    ring laws, such as the canonical form SymPy keeps. *)
Theorem symbolic_value_is_numeric :
  forall (A : Type) (S : Scalar A),
    CRing A ->
    forall (v : symbol -> A) (sequence : list Z) (angles : list expr)
           (dcm canonical : matrix expr),
      symbolic_angles sequence = Ok angles ->
      get_symbolic_dcm sequence = Ok dcm ->
      ring_identity dcm canonical ->
      euler_to_dcm sequence (map (denote v) angles)
      = Ok (denote_matrix v canonical).
Proof.
  intros A S CR v sequence angles dcm canonical Ea Ed I.
  rewrite <- (I A S CR v).
  destruct (symbolic_angles_inv _ Ea) as (axes & D & ->).
  rewrite (get_symbolic_dcm_decode _ D) in Ed. apply Ok_injective in Ed.
  subst dcm. rewrite denote_compose. unfold at_values.
  rewrite <- combine_map_r. apply euler_to_dcm_decode; [exact D|].
  unfold angles_of. rewrite !length_map.
  symmetry. now apply decode_axes_length.
Qed.

Lemma symbolic_value_is_numeric_witness :
  euler_to_dcm [3; 2; 1]%Z
    (map (denote (fun x => match x with phi => 1 | theta => 2 | psi => 3 end))
         [ESym psi; ESym theta; ESym phi])
  = Ok (denote_matrix
          (fun x => match x with phi => 1 | theta => 2 | psi => 3 end)
          aircraft_displayed).
Proof.
  apply (@symbolic_value_is_numeric R real_scalar real_cring
           (fun x => match x with phi => 1 | theta => 2 | psi => 3 end)
           [3; 2; 1]%Z [ESym psi; ESym theta; ESym phi]
           (compose [(AxisZ, ESym psi); (AxisY, ESym theta);
                     (AxisX, ESym phi)])
           aircraft_displayed);
    [reflexivity | reflexivity |].
  intros B SB CRB v. apply aircraft_displayed_value.
Defined.

(** ** The printed text *)

Example aircraft_printed_text_check :
  print_matrix format_fixed
    (array_of (Mat (decimal_of_millionths (m11 aircraft_printed))
                   (decimal_of_millionths (m12 aircraft_printed))
                   (decimal_of_millionths (m13 aircraft_printed))
                   (decimal_of_millionths (m21 aircraft_printed))
                   (decimal_of_millionths (m22 aircraft_printed))
                   (decimal_of_millionths (m23 aircraft_printed))
                   (decimal_of_millionths (m31 aircraft_printed))
                   (decimal_of_millionths (m32 aircraft_printed))
                   (decimal_of_millionths (m33 aircraft_printed))))
    6 ""
  = aircraft_printed_text.
Proof. vm_compute. reflexivity. Qed.

Local Open Scope string_scope.

Lemma append_nil_r (s : string) : s ++ "" = s.
Proof. induction s as [|c s IH]; cbn; [reflexivity | now rewrite IH]. Qed.

Lemma append_assoc (s t u : string) : (s ++ t) ++ u = s ++ (t ++ u).
Proof. induction s as [|c s IH]; cbn; [reflexivity | now rewrite IH]. Qed.

Lemma length_append (s t : string) :
  String.length (s ++ t) = (String.length s + String.length t)%nat.
Proof. induction s as [|c s IH]; cbn; [reflexivity | now rewrite IH]. Qed.

Lemma concat_cons (sep x : string) (l : list string) :
  l <> [] -> String.concat sep (x :: l) = x ++ sep ++ String.concat sep l.
Proof. destruct l; [congruence | reflexivity]. Qed.

(** The loop over [j]: a separator after every entry but the last is a
    join. *)
Lemma entries_loop (f : nat -> string) (cols len start : nat)
      (stdout : string) :
  (start + len = cols)%nat ->
  fold_left
    (fun stdout j =>
       let stdout := stdout ++ f j in
       if (j <? cols - 1)%nat then stdout ++ ", " else stdout)
    (seq start len) stdout
  = stdout ++ String.concat ", " (map f (seq start len)).
Proof.
  revert start stdout. induction len as [|n IH]; intros start stdout E.
  - cbn. now rewrite append_nil_r.
  - cbn [seq fold_left map]. destruct n as [|k].
    + cbn [seq fold_left map String.concat].
      replace (start <? cols - 1)%nat with false
        by (symmetry; apply Nat.ltb_ge; lia).
      reflexivity.
    + replace (start <? cols - 1)%nat with true
        by (symmetry; apply Nat.ltb_lt; lia).
      rewrite IH by lia.
      rewrite concat_cons by (cbn; discriminate).
      now rewrite !append_assoc.
Qed.

Lemma chunks_loop {I} (g : I -> string) (l : list I) (stdout : string) :
  fold_left (fun stdout i => stdout ++ g i) l stdout
  = stdout ++ String.concat "" (map g l).
Proof.
  revert stdout. induction l as [|i rest IH]; intros stdout; cbn [fold_left map].
  - cbn. now rewrite append_nil_r.
  - rewrite IH. destruct rest as [|i' rest'].
    + cbn [map String.concat]. now rewrite append_nil_r.
    + rewrite concat_cons by (cbn; discriminate).
      cbn [append]. now rewrite append_assoc.
Qed.

(** X12.  [print_matrix] appends one line per row to the text written so
    far: two spaces, an opening bracket, the formatted entries of the row
    joined by a comma and a space (none after the last entry), a closing
    bracket, a newline.  An array without rows adds nothing. *)
Theorem print_matrix_layout :
  forall (A : Type) (format_f : nat -> nat -> A -> string)
         (matrix : ndarray A) (precision : nat) (stdout : string),
    print_matrix format_f matrix precision stdout
    = stdout
      ++ String.concat ""
           (map (fun i => row_text format_f matrix precision i ++ newline)
                (seq 0 (fst (shape matrix)))).
Proof.
  intros A format_f matrix precision stdout.
  unfold print_matrix, row_text. destruct (shape matrix) as [rows cols].
  cbn [fst snd]. rewrite <- chunks_loop.
  generalize (seq 0 rows). intros l. revert stdout.
  induction l as [|i rest IH]; intros stdout; cbn [fold_left].
  - reflexivity.
  - rewrite IH. f_equal.
    rewrite (@entries_loop
               (fun j => format_f (precision + 4)%nat precision
                                  (item matrix i j))
               cols cols 0) by reflexivity.
    destruct (i <? rows - 1)%nat; now rewrite !append_assoc.
Qed.

(** ** Column alignment *)










(** ** What [display_symbolic_dcm] shows *)

Lemma axis_names_decode (axis : Z) (a : Axis) :
  axis_of_code axis = Some a ->
  dict_get axis_names axis = Ok (axis_letter a).
Proof.
  intros E. pose proof (axis_of_code_cases axis) as C. rewrite E in C.
  destruct a; subst axis; reflexivity.
Qed.

Lemma axis_letters_decode (sequence : list Z) (axes : list Axis) :
  decode_axes sequence = Some axes ->
  axis_letters sequence = Ok (map axis_letter axes).
Proof.
  revert axes. induction sequence as [|axis rest IH]; intros axes;
    cbn [decode_axes axis_letters].
  - intros [= <-]. reflexivity.
  - destruct (axis_of_code axis) as [a|] eqn:Ea; [|discriminate].
    destruct (decode_axes rest) as [l|]; [|discriminate].
    intros [= <-]. rewrite (axis_names_decode _ Ea). cbn [bind].
    now rewrite (IH l).
Qed.

Lemma label_injective (l1 l2 : list Axis) :
  String.concat "-" (map axis_letter l1)
  = String.concat "-" (map axis_letter l2) ->
  l1 = l2.
Proof.
  revert l2. induction l1 as [|a r1 IH]; intros [|b r2] E.
  - reflexivity.
  - destruct r2, b; discriminate.
  - destruct r1, a; discriminate.
  - destruct r1 as [|a' r1], r2 as [|b' r2].
    + destruct a, b; try discriminate; reflexivity.
    + destruct a, b, b'; discriminate.
    + destruct a, a', b; discriminate.
    + cbn [map] in E, IH. rewrite !concat_cons in E by discriminate.
      assert (a = b
              /\ String.concat "-" (axis_letter a' :: map axis_letter r1)
                 = String.concat "-" (axis_letter b' :: map axis_letter r2))
        as [-> E'].
      { destruct a, b; cbn [axis_letter append] in E;
          try discriminate; injection E as E; auto. }
      f_equal. apply (IH (b' :: r2)). exact E'.
Qed.

Lemma length_label (l : list Axis) :
  l <> [] ->
  String.length (String.concat "-" (map axis_letter l))
  = (2 * length l - 1)%nat.
Proof.
  induction l as [|a [|a' r] IH]; [congruence | |]; intros _.
  - destruct a; reflexivity.
  - cbn [map] in *. rewrite concat_cons by discriminate.
    rewrite !length_append, IH by discriminate.
    destruct a; cbn [axis_letter String.length length]; lia.
Qed.

(** X14.  On a sequence with an axis other than 1, 2, 3,
    [display_symbolic_dcm] raises [KeyError] with the first such axis and
    shows nothing: the failure comes before the first [print]. *)
Theorem display_symbolic_dcm_invalid :
  forall (sequence : list Z) (description : string) (shown : list output),
    forallb valid_axis sequence = false ->
    exists axis,
      first_invalid sequence = Some axis
      /\ display_symbolic_dcm sequence description shown
         = (shown, Raise (KeyError axis)).
Proof.
  intros sequence description shown V.
  destruct (first_invalid sequence) as [axis|] eqn:F.
  - exists axis. split; [reflexivity|].
    unfold display_symbolic_dcm.
    pose proof (get_symbolic_dcm_outcome sequence) as O.
    rewrite F in O. now rewrite O.
  - apply first_invalid_forallb in F. congruence.
Qed.

Lemma display_symbolic_dcm_invalid_witness :
  exists axis,
    first_invalid [3; 4; 1]%Z = Some axis
    /\ display_symbolic_dcm [3; 4; 1]%Z "Broken" []
       = ([], Raise (KeyError axis)).
Proof.
  apply (@display_symbolic_dcm_invalid [3; 4; 1]%Z "Broken" []).
  reflexivity.
Defined.

(** X15.  On a sequence of axes 1, 2, 3, [display_symbolic_dcm] adds four
    things to what is shown: the description with the axis letters joined
    by hyphens, the composed matrix, the line "Inverse DCM :", and the
    transposed matrix.  The lookup in [axis_names] never fails, and the
    matrix shown as inverse is the inverse of the matrix shown, on both
    sides, after trigonometric simplification. *)
Theorem display_symbolic_dcm_valid :
  forall (sequence : list Z) (axes : list Axis) (description : string)
         (shown : list output),
    decode_axes sequence = Some axes ->
    exists dcm,
      get_symbolic_dcm sequence = Ok dcm
      /\ display_symbolic_dcm sequence description shown
         = ((shown
             ++ [Printed (description ++ " (Sequence: "
                          ++ String.concat "-" (map axis_letter axes) ++ ")");
                 Displayed dcm;
                 Printed "Inverse DCM :";
                 Displayed (invert dcm)])%list,
            Ok tt)
      /\ trig_identity (dot dcm (invert dcm)) eye
      /\ trig_identity (dot (invert dcm) dcm) eye.
Proof.
  intros sequence axes description shown D.
  exists (compose (combine axes (angles_of axes))).
  repeat apply conj.
  - now apply get_symbolic_dcm_decode.
  - unfold display_symbolic_dcm.
    rewrite (get_symbolic_dcm_decode _ D), (axis_letters_decode _ D).
    unfold invert. now rewrite <- !app_assoc.
  - intros B SB CRB PB v. unfold invert.
    rewrite denote_dot, denote_transpose, denote_compose, denote_eye.
    now apply compose_orthogonal.
  - intros B SB CRB PB v. unfold invert.
    rewrite denote_dot, denote_transpose, denote_compose, denote_eye.
    now apply compose_orthogonal_left.
Qed.

Lemma display_symbolic_dcm_valid_witness :
  exists dcm,
    get_symbolic_dcm [3; 2; 1]%Z = Ok dcm
    /\ display_symbolic_dcm [3; 2; 1]%Z
         "Aircraft Euler Angles (Yaw-Pitch-Roll)" []
       = (([] ++ [Printed ("Aircraft Euler Angles (Yaw-Pitch-Roll)"
                           ++ " (Sequence: "
                           ++ String.concat "-"
                                (map axis_letter [AxisZ; AxisY; AxisX])
                           ++ ")");
                  Displayed dcm;
                  Printed "Inverse DCM :";
                  Displayed (invert dcm)])%list,
          Ok tt)
    /\ trig_identity (dot dcm (invert dcm)) eye
    /\ trig_identity (dot (invert dcm) dcm) eye.
Proof.
  apply (@display_symbolic_dcm_valid [3; 2; 1]%Z [AxisZ; AxisY; AxisX]).
  reflexivity.
Defined.

Lemma axis_letters_inv (sequence : list Z) (names : list string) :
  axis_letters sequence = Ok names ->
  exists axes,
    decode_axes sequence = Some axes /\ names = map axis_letter axes.
Proof.
  revert names.
  induction sequence as [|x rest IH]; intros names;
    cbn [axis_letters decode_axes].
  - intros [= <-]. now exists [].
  - destruct (axis_of_code x) as [a|] eqn:Ea.
    + rewrite (axis_names_decode _ Ea). cbn [bind].
      destruct (axis_letters rest) as [l|e]; cbn [bind]; [|discriminate].
      intros [= <-]. destruct (IH l eq_refl) as (axes & -> & ->).
      now exists (a :: axes).
    + pose proof (axis_of_code_cases x) as C. rewrite Ea in C.
      destruct C as (N1 & N2 & N3). unfold axis_names. cbn [dict_get].
      destruct (Z.eqb_spec 1 x); [congruence|].
      destruct (Z.eqb_spec 2 x); [congruence|].
      destruct (Z.eqb_spec 3 x); [congruence|]. discriminate.
Qed.

Lemma decode_axes_injective (s1 s2 : list Z) (axes : list Axis) :
  decode_axes s1 = Some axes -> decode_axes s2 = Some axes -> s1 = s2.
Proof.
  revert s2 axes. induction s1 as [|x r1 IH]; intros [|y r2] axes;
    cbn [decode_axes].
  - reflexivity.
  - intros [= <-]. destruct (axis_of_code y); [|discriminate].
    destruct (decode_axes r2); discriminate.
  - destruct (axis_of_code x); [|discriminate].
    destruct (decode_axes r1); [|discriminate]. intros [= <-]. discriminate.
  - destruct (axis_of_code x) as [a|] eqn:Ex; [|discriminate].
    destruct (decode_axes r1) as [l1|] eqn:D1; [|discriminate].
    destruct (axis_of_code y) as [b|] eqn:Ey; [|discriminate].
    destruct (decode_axes r2) as [l2|] eqn:D2; [|discriminate].
    intros [= <-] [= -> ->]. f_equal.
    + eapply axis_of_code_injective; eassumption.
    + eapply IH; [reflexivity | exact D2].
Qed.

(** X16.  The sequence label is unambiguous: two sequences of axes 1, 2, 3
    with the same hyphen-joined letters are the same sequence; the label of
    [n >= 1] axes has [2 n - 1] characters. *)
Theorem rotation_label_determines_sequence :
  forall (s1 s2 : list Z) (names1 names2 : list string),
    axis_letters s1 = Ok names1 ->
    axis_letters s2 = Ok names2 ->
    (String.concat "-" names1 = String.concat "-" names2 -> s1 = s2)
    /\ (s1 <> [] ->
        String.length (String.concat "-" names1)
        = (2 * length s1 - 1)%nat).
Proof.
  intros s1 s2 names1 names2 E1 E2.
  destruct (axis_letters_inv _ E1) as (x1 & D1 & ->).
  destruct (axis_letters_inv _ E2) as (x2 & D2 & ->).
  split.
  - intros E. apply label_injective in E. subst x2.
    eapply decode_axes_injective; eassumption.
  - intros N. rewrite length_label.
    + now rewrite (decode_axes_length _ D1).
    + intros ->. destruct s1; [congruence | cbn in D1].
      destruct (axis_of_code z); [|discriminate].
      destruct (decode_axes s1); discriminate.
Qed.

Lemma rotation_label_determines_sequence_witness :
  (String.concat "-" ["Z"; "X"; "Z"] = String.concat "-" ["Z"; "X"; "Z"] ->
   [3; 1; 3]%Z = [3; 1; 3]%Z)
  /\ ([3; 1; 3]%Z <> [] ->
      String.length (String.concat "-" ["Z"; "X"; "Z"])
      = (2 * length [3; 1; 3]%Z - 1)%nat).
Proof.
  apply (@rotation_label_determines_sequence [3; 1; 3]%Z [3; 1; 3]%Z);
    reflexivity.
Defined.

Example aircraft_description_line :
  fst (display_symbolic_dcm [3; 2; 1]%Z
         "Aircraft Euler Angles (Yaw-Pitch-Roll)" [])
  = [Printed "Aircraft Euler Angles (Yaw-Pitch-Roll) (Sequence: Z-Y-X)";
     Displayed (compose [(AxisZ, ESym psi); (AxisY, ESym theta);
                         (AxisX, ESym phi)]);
     Printed "Inverse DCM :";
     Displayed (transpose (compose [(AxisZ, ESym psi); (AxisY, ESym theta);
                                    (AxisX, ESym phi)]))].
Proof. reflexivity. Qed.

(** ** The matrices of the last cell, over the reals *)

Local Open Scope R_scope.

Lemma trig_5 :
  0.9961946980 < cos (radians 5) < 0.9961946982
  /\ 0.0871557426 < sin (radians 5) < 0.0871557430.
Proof.
  pose proof PI_bounds as [P1 P2].
  destruct (@taylor_bounds (radians 5) (5 * (3.14159265 / 180))
                           (5 * (3.14159266 / 180)))
    as [[Cl Cu] [Sl Su]]; unfold radians in *; lra.
Qed.

Lemma trig_3 :
  0.9986295347 < cos (radians 3) < 0.9986295348
  /\ 0.0523359561 < sin (radians 3) < 0.0523359564.
Proof.
  pose proof PI_bounds as [P1 P2].
  destruct (@taylor_bounds (radians 3) (3 * (3.14159265 / 180))
                           (3 * (3.14159266 / 180)))
    as [[Cl Cu] [Sl Su]]; unfold radians in *; lra.
Qed.

Lemma trig_1 :
  0.9998476951 < cos (radians 1) < 0.9998476952
  /\ 0.0174524064 < sin (radians 1) < 0.0174524065.
Proof.
  pose proof PI_bounds as [P1 P2].
  destruct (@taylor_bounds (radians 1) (1 * (3.14159265 / 180))
                           (1 * (3.14159266 / 180)))
    as [[Cl Cu] [Sl Su]]; unfold radians in *; lra.
Qed.

Tactic Notation "bracket_named" ident(Hx) ident(Hy) ident(B) :=
  pose proof (@product_bounds _ _ _ _ _ _
                (proj1 Hx) (proj2 Hx) (proj1 Hy) (proj2 Hy)) as B;
  specialize (B ltac:(lra) ltac:(lra)).

Ltac last_cell_matrix :=
  eexists; split; [reflexivity|];
  destruct trig_5 as [C5 S5], trig_3 as [C3 S3], trig_1 as [C1 S1];
  unfold matrix_shows_as, shows_as, entrywise_related, within;
  cbn [m11 m12 m13 m21 m22 m23 m31 m32 m33 dot eye
       szero sone sadd smul sopp scos ssin real_scalar];
  generalize dependent (cos (radians 5)); intros c5 C5;
  generalize dependent (sin (radians 5)); intros s5 S5;
  generalize dependent (cos (radians 3)); intros c3 C3;
  generalize dependent (sin (radians 3)); intros s3 S3;
  generalize dependent (cos (radians 1)); intros c1 C1;
  generalize dependent (sin (radians 1)); intros s1 S1;
  bracket_named C5 C3 Bcc; bracket_named C5 S3 Bcs;
  bracket_named S5 C3 Bsc; bracket_named S5 S3 Bss;
  bracket_named C5 C1 Dcc; bracket_named C5 S1 Dcs;
  bracket_named S5 C1 Dsc; bracket_named S5 S1 Dss;
  bracket_named C3 C1 Ecc; bracket_named C3 S1 Ecs;
  bracket_named S3 C1 Esc; bracket_named S3 S1 Ess;
  bracket_named Bcc C1 Tccc; bracket_named Bcc S1 Tccs;
  bracket_named Bcs C1 Tcsc; bracket_named Bcs S1 Tcss;
  bracket_named Bsc C1 Tscc; bracket_named Bsc S1 Tscs;
  bracket_named Bss C1 Tssc; bracket_named Bss S1 Tsss;
  repeat split; apply Rabs_def1; lra.

(** X17.  Each of the six sequences of the last cell, composed in real
    arithmetic with the angles 5, 3 and 1 degrees in radians, gives a
    matrix that shows to six decimals as the matrix printed for it in the
    notebook. *)
Theorem last_cell_matrices_to_six_decimals :
  Forall2
    (fun sequence printed =>
       exists dcm,
         euler_to_dcm sequence last_cell_angles_rad = Ok dcm
         /\ matrix_shows_as dcm printed)
    last_cell_sequences last_cell_printed.
Proof.
  unfold last_cell_sequences, last_cell_printed.
  repeat (apply Forall2_cons; [last_cell_matrix|]).
  apply Forall2_nil.
Qed.
